(** * ecr-cleanup: image selection, batch deletion and the cleanup driver

    A shallow embedding of [main.go] and of the testable wrapper
    [CleanupWithClient], together with the mock registry client of the test
    suite, and the properties of the retention policy proved over it.

    Conventions of the embedding:
    - Go's [int] and [int64] are [Z] with two's-complement wrap-around written
      out ([wrap64]); [len] is a [nat] injected with [Z.of_nat].
    - a pointer field ([*string], [*time.Time], [*int64]) is an [option];
      dereferencing [nil] is the outcome [Panic].
    - a [time.Time] is the instant it denotes, as a [Z] count of nanoseconds;
      [Before] and [After] compare instants.
    - the registry client is a record of four methods over an abstract state;
      every call is appended to a trace carried by the world.
    - the two pagination loops are unbounded in Go; they take fuel here and
      [OutOfFuel] is an outcome of its own.
    - [log.Printf] output is not recorded; only the evaluation of its
      arguments is, because it can panic. *)

From Stdlib Require Import ZArith String List Bool Lia Permutation Sorted.
From Stdlib Require Import DecimalString.
Import ListNotations.
Open Scope Z_scope.

Set Implicit Arguments.

(** ** Machine integers *)

Definition wrap64 (z : Z) : Z := (z + 2 ^ 63) mod 2 ^ 64 - 2 ^ 63.

Definition in_int64 (z : Z) : Prop := - 2 ^ 63 <= z < 2 ^ 63.

Definition int_add (a b : Z) : Z := wrap64 (a + b).
Definition int_neg (a : Z) : Z := wrap64 (- a).

(** ** Time *)

Definition Time := Z.

Definition Before (t u : Time) : bool := t <? u.
Definition After (t u : Time) : bool := t >? u.

(** ** Strict weak orders and the contract of [sort.Slice] *)

Record StrictWeakOrder (A : Type) (less : A -> A -> bool) : Prop := {
  swo_irrefl : forall a, less a a = false;
  swo_trans : forall a b c, less a b = true -> less b c = true -> less a c = true;
  swo_incomp : forall a b c,
      less a b = false -> less b a = false ->
      less b c = false -> less c b = false ->
      less a c = false /\ less c a = false
}.

(** What the program takes from the Go runtime: [sort.Slice] and
    [t.AddDate(0, 0, days)], calendar arithmetic in the location of [t]. *)
Class GoRuntime := {
  sort_Slice : forall A : Type, (A -> A -> bool) -> list A -> list A;
  AddDate_days : Time -> Z -> Time
}.

(** The contract of [sort.Slice]: it permutes its slice and, for a [less]
    that is a strict weak order, leaves no later element less than an earlier
    one.  It is not stable. *)
Record GoRuntimeOk (R : GoRuntime) : Prop := {
  sort_Slice_perm : forall (A : Type) (less : A -> A -> bool) (l : list A),
      Permutation l (sort_Slice less l);
  sort_Slice_sorted : forall (A : Type) (less : A -> A -> bool),
      StrictWeakOrder less ->
      forall l : list A,
        StronglySorted (fun a b => less b a = false) (sort_Slice less l)
}.

(** The insertion sort that [sort.Slice] runs on slices of at most twelve
    elements ([insertionSortLessFunc]): each element in turn moves left while
    it is less than its left neighbour.  [revPrefix] is the sorted prefix,
    last element first. *)
Fixpoint insertLeft (A : Type) (less : A -> A -> bool) (x : A)
         (revPrefix : list A) : list A :=
  match revPrefix with
  | [] => [x]
  | y :: rest => if less x y then y :: insertLeft less x rest else x :: revPrefix
  end.

Definition insertionSortLessFunc (A : Type) (less : A -> A -> bool)
           (l : list A) : list A :=
  rev (fold_left (fun revPrefix x => insertLeft less x revPrefix) l []).

Definition nanosPerDay : Z := 86400 * 1000000000.

(** A runtime to evaluate with: insertion sort, and [AddDate] in UTC, where a
    day is always twenty-four hours. *)
Definition utcRuntime : GoRuntime := {|
  sort_Slice := insertionSortLessFunc;
  AddDate_days := fun t days => t + days * nanosPerDay
|}.

(** ** Data model (the fields of the SDK types that the program reads) *)

Record ImageDetail := {
  ImageDigest : option string;
  ImageTags : list string;
  ImagePushedAt : option Time;
  ImageSizeInBytes : option Z
}.

Record ImageIdentifier := {
  Id_ImageTag : option string;
  Id_ImageDigest : option string
}.

Record Repository := { RepositoryName : option string }.

Record Config := {
  DryRun : bool;
  Days : Z;
  Region : string;
  MaxImages : Z
}.

Record CleanupSummary := {
  RepositoriesProcessed : Z;
  ImagesDeleted : Z;
  SpaceFreed : Z
}.

(** ** Image Selector *)

(** The closure passed to [sort.Slice] in [sortImagesByPushedTime]. *)
Definition pushedLess (a b : ImageDetail) : bool :=
  match ImagePushedAt a with
  | None => false
  | Some ta =>
      match ImagePushedAt b with
      | None => true
      | Some tb => After ta tb
      end
  end.

Definition sortImagesByPushedTime {R : GoRuntime} (images : list ImageDetail)
  : list ImageDetail :=
  sort_Slice pushedLess images.

Definition cutoffTime {R : GoRuntime} (cfg : Config) (now : Time) : Time :=
  AddDate_days now (int_neg (Days cfg)).

Definition keepCount (cfg : Config) (n : nat) : Z :=
  if MaxImages cfg >? 0 then
    (if MaxImages cfg >? Z.of_nat n then Z.of_nat n else MaxImages cfg)
  else 0.

(** The [for i, img := range images] loop of [selectImagesForDeletion]:
    [i] is the index of the head of [imgs], [toDelete] the slice built so
    far. *)
Fixpoint selectLoop (cutoff : Time) (keep : Z) (i : Z)
         (imgs toDelete : list ImageDetail) : list ImageDetail :=
  match imgs with
  | [] => toDelete
  | img :: rest =>
      if i <? keep then selectLoop cutoff keep (i + 1) rest toDelete
      else
        match ImagePushedAt img with
        | Some t =>
            if Before t cutoff
            then selectLoop cutoff keep (i + 1) rest (toDelete ++ [img])
            else selectLoop cutoff keep (i + 1) rest toDelete
        | None => selectLoop cutoff keep (i + 1) rest toDelete
        end
  end.

(** [now] is the value of the one [time.Now()] call.  The slice is sorted in
    place; the deletion set is what is returned. *)
Definition selectImagesForDeletion {R : GoRuntime} (images : list ImageDetail)
           (cfg : Config) (now : Time) : list ImageDetail :=
  let cutoff := cutoffTime cfg now in
  let images := sortImagesByPushedTime images in
  let keep := keepCount cfg (length images) in
  selectLoop cutoff keep 0 images [].

(** What a Go call comes to: a value, a run-time panic (here always a nil
    pointer dereference), or, for the model of an unbounded loop, the end of
    the fuel. *)
Inductive Outcome (A : Type) :=
| Done (a : A)
| Panic
| OutOfFuel.

Arguments Panic {A}.
Arguments OutOfFuel {A}.

(** [getImageTag]: the first tag, else [*img.ImageDigest]. *)
Definition getImageTag (img : ImageDetail) : Outcome string :=
  match ImageTags img with
  | tag :: _ => Done tag
  | [] =>
      match ImageDigest img with
      | Some digest => Done digest
      | None => Panic
      end
  end.

(** [getImageIdString], on the identifier of a per-item failure. *)
Definition getImageIdString (id : option ImageIdentifier) : string :=
  match id with
  | None => "unknown"
  | Some id =>
      match Id_ImageTag id with
      | Some tag => tag
      | None =>
          match Id_ImageDigest id with
          | Some digest => digest
          | None => "unknown"
          end
      end
  end.

(** The body of the inner loop of [deleteImages]: the identifier sent for one
    image. *)
Definition imageIdentifier (img : ImageDetail) : ImageIdentifier :=
  match ImageTags img with
  | tag :: _ => {| Id_ImageTag := Some tag; Id_ImageDigest := None |}
  | [] => {| Id_ImageTag := None; Id_ImageDigest := ImageDigest img |}
  end.

(** ** Registry client *)

Inductive error :=
| ServerException (message : string)
| Errorf (context : string) (cause : error).

Record DescribeRepositoriesInput := { dri_NextToken : option string }.

Record DescribeRepositoriesOutput := {
  Repositories : list Repository;
  dro_NextToken : option string
}.

Record ListImagesInput := {
  lii_RepositoryName : string;
  lii_NextToken : option string
}.

Record ListImagesOutput := {
  ImageIds : list ImageIdentifier;
  lio_NextToken : option string
}.

Record DescribeImagesInput := {
  dii_RepositoryName : string;
  dii_ImageIds : list ImageIdentifier
}.

Record DescribeImagesOutput := { ImageDetails : list ImageDetail }.

Record BatchDeleteImageInput := {
  bdi_RepositoryName : string;
  bdi_ImageIds : list ImageIdentifier
}.

Record ImageFailure := {
  FailureCode : string;
  FailureReason : option string;
  ImageId : option ImageIdentifier
}.

Record BatchDeleteImageOutput := {
  Failures : list ImageFailure;
  bdo_ImageIds : list ImageIdentifier
}.

(** A method returns an output pointer and an error, either of which may be
    nil, and moves the client (and the registry behind it) to a new state. *)
Definition Method (St In Out : Type) : Type :=
  In -> St -> (option Out * option error) * St.

Record ECRClient (St : Type) := {
  DescribeRepositories : Method St DescribeRepositoriesInput DescribeRepositoriesOutput;
  ListImages : Method St ListImagesInput ListImagesOutput;
  DescribeImages : Method St DescribeImagesInput DescribeImagesOutput;
  BatchDeleteImage : Method St BatchDeleteImageInput BatchDeleteImageOutput
}.

(** ** The world: client state and the trace of calls issued so far *)

Inductive Call :=
| CallDescribeRepositories (params : DescribeRepositoriesInput)
| CallListImages (params : ListImagesInput)
| CallDescribeImages (params : DescribeImagesInput)
| CallBatchDeleteImage (params : BatchDeleteImageInput).

Record World (St : Type) := {
  client_state : St;
  calls : list Call
}.

Definition M (St A : Type) : Type := World St -> Outcome A * World St.

Definition ret (St A : Type) (a : A) : M St A := fun w => (Done a, w).

Definition bind (St A B : Type) (m : M St A) (f : A -> M St B) : M St B :=
  fun w =>
    match m w with
    | (Done a, w') => f a w'
    | (Panic, w') => (Panic, w')
    | (OutOfFuel, w') => (OutOfFuel, w')
    end.

Definition panic (St A : Type) : M St A := fun w => (Panic, w).
Definition outOfFuel (St A : Type) : M St A := fun w => (OutOfFuel, w).

Arguments ret {St A} a.
Arguments panic {St A}.
Arguments outOfFuel {St A}.

Declare Scope go_scope.
Delimit Scope go_scope with go.
Notation "x <- m ;; k" := (bind m (fun x => k))
  (at level 61, m at next level, right associativity) : go_scope.
Notation "' p <- m ;; k" := (bind m (fun x => match x with p => k end))
  (at level 61, p pattern, m at next level, right associativity) : go_scope.
Open Scope go_scope.

Definition lift (St A : Type) (o : Outcome A) : M St A := fun w => (o, w).

(** Dereference of a pointer. *)
Definition deref (St A : Type) (p : option A) : M St A :=
  match p with
  | Some a => ret a
  | None => panic
  end.

(** One remote call: run the method on the client state, record the call. *)
Definition invoke (St In Out : Type) (method : Method St In Out)
           (event : In -> Call) (params : In)
  : M St (option Out * option error) :=
  fun w =>
    let '(r, s) := method params (client_state w) in
    (Done r, {| client_state := s; calls := calls w ++ [event params] |}).

(** [for _, x := range xs { body }] for a body run for its effects. *)
Fixpoint forEach (St A : Type) (body : A -> M St unit) (xs : list A)
  : M St unit :=
  match xs with
  | [] => ret tt
  | x :: rest => _ <- body x ;; forEach body rest
  end.

Definition isBatchDelete (c : Call) : bool :=
  match c with
  | CallBatchDeleteImage _ => true
  | _ => false
  end.

Definition isDescribeImages (c : Call) : bool :=
  match c with
  | CallDescribeImages _ => true
  | _ => false
  end.

(** The identifier lists of the batch-delete calls of a trace, in order. *)
Definition deleteBatches (tr : list Call) : list (list ImageIdentifier) :=
  flat_map (fun c => match c with
                     | CallBatchDeleteImage p => [bdi_ImageIds p]
                     | _ => []
                     end) tr.

(** ** The program *)

Section Program.

Context {R : GoRuntime}.

(** The state of the client and of the registry behind it. *)
Variable St : Type.

(** [time.Now()], read off the state of the world. *)
Variable time_Now : St -> Time.

Definition readClock : M St Time :=
  fun w => (Done (time_Now (client_state w)), w).

(** The [for] loop of [getRepositories]; one unit of fuel per page. *)
Fixpoint getRepositoriesLoop (fuel : nat) (client : ECRClient St)
         (repositories : list Repository) (nextToken : option string)
  : M St (list Repository * option error) :=
  match fuel with
  | O => outOfFuel
  | S fuel =>
      '(resp, err) <- invoke (DescribeRepositories client) CallDescribeRepositories
                             {| dri_NextToken := nextToken |} ;;
      match err with
      | Some e => ret ([], Some e)
      | None =>
          resp <- deref resp ;;
          let repositories := repositories ++ Repositories resp in
          match dro_NextToken resp with
          | None => ret (repositories, None)
          | Some token => getRepositoriesLoop fuel client repositories (Some token)
          end
      end
  end.

Definition getRepositories (fuel : nat) (client : ECRClient St)
  : M St (list Repository * option error) :=
  getRepositoriesLoop fuel client [] None.

(** The [for] loop of [getImageDetails]; one unit of fuel per page. *)
Fixpoint getImageDetailsLoop (fuel : nat) (client : ECRClient St)
         (repoName : string) (images : list ImageDetail)
         (nextToken : option string)
  : M St (list ImageDetail * option error) :=
  match fuel with
  | O => outOfFuel
  | S fuel =>
      '(listResp, err) <- invoke (ListImages client) CallListImages
                                 {| lii_RepositoryName := repoName;
                                    lii_NextToken := nextToken |} ;;
      match err with
      | Some e => ret ([], Some e)
      | None =>
          listResp <- deref listResp ;;
          '(images, err) <-
            (if (0 <? length (ImageIds listResp))%nat then
               '(descResp, err) <- invoke (DescribeImages client) CallDescribeImages
                                          {| dii_RepositoryName := repoName;
                                             dii_ImageIds := ImageIds listResp |} ;;
               match err with
               | Some e => ret ([], Some e)
               | None =>
                   descResp <- deref descResp ;;
                   ret (images ++ ImageDetails descResp, None)
               end
             else ret (images, None)) ;;
          match err with
          | Some e => ret ([], Some e)
          | None =>
              match lio_NextToken listResp with
              | None => ret (images, None)
              | Some token =>
                  getImageDetailsLoop fuel client repoName images (Some token)
              end
          end
      end
  end.

Definition getImageDetails (fuel : nat) (client : ECRClient St)
           (repoName : string) : M St (list ImageDetail * option error) :=
  getImageDetailsLoop fuel client repoName [] None.

Definition batchSize : nat := 100.

(** The arguments of the log line for one per-item failure. *)
Definition logFailure (failure : ImageFailure) : M St unit :=
  let _ := getImageIdString (ImageId failure) in
  _ <- deref (FailureReason failure) ;;
  ret tt.

(** The [for i := 0; i < len(images); i += batchSize] loop of [deleteImages],
    from index [i] on.  [n] bounds the iterations left; [deleteImages] starts
    it at [len(images)], which is enough. *)
Fixpoint deleteImagesFrom (n : nat) (client : ECRClient St) (repoName : string)
         (images : list ImageDetail) (i : nat) : M St (option error) :=
  if (i <? length images)%nat then
    match n with
    | O => outOfFuel
    | S n =>
        let end_ := if (length images <? i + batchSize)%nat
                    then length images else (i + batchSize)%nat in
        let batch := firstn (end_ - i) (skipn i images) in
        let imageIds := map imageIdentifier batch in
        '(result, err) <- invoke (BatchDeleteImage client) CallBatchDeleteImage
                                 {| bdi_RepositoryName := repoName;
                                    bdi_ImageIds := imageIds |} ;;
        match err with
        | Some e => ret (Some (Errorf "failed to delete batch of images" e))
        | None =>
            result <- deref result ;;
            _ <- forEach logFailure (Failures result) ;;
            deleteImagesFrom n client repoName images (i + batchSize)
        end
    end
  else ret None.

Definition deleteImages (client : ECRClient St) (repoName : string)
           (images : list ImageDetail) : M St (option error) :=
  deleteImagesFrom (length images) client repoName images 0.

(** The loop of [processRepository] that sums the known sizes. *)
Definition spaceFreed (toDelete : list ImageDetail) : Z :=
  fold_left (fun acc img =>
               match ImageSizeInBytes img with
               | Some size => int_add acc size
               | None => acc
               end) toDelete 0.

(** The arguments of the dry-run log line for one image. *)
Definition logDryRun (img : ImageDetail) : M St unit :=
  _ <- lift (getImageTag img) ;;
  ret tt.

Definition processRepository (fuel : nat) (client : ECRClient St)
           (repoName : string) (cfg : Config)
  : M St (CleanupSummary * option error) :=
  let repoSummary := {| RepositoriesProcessed := 1;
                        ImagesDeleted := 0;
                        SpaceFreed := 0 |} in
  '(images, err) <- getImageDetails fuel client repoName ;;
  match err with
  | Some e => ret (repoSummary, Some (Errorf "failed to get image details" e))
  | None =>
      t <- readClock ;;
      let toDelete := selectImagesForDeletion images cfg t in
      if (length toDelete =? 0)%nat then ret (repoSummary, None)
      else
        let repoSummary := {| RepositoriesProcessed := 1;
                              ImagesDeleted := Z.of_nat (length toDelete);
                              SpaceFreed := spaceFreed toDelete |} in
        if DryRun cfg then
          _ <- forEach logDryRun toDelete ;;
          ret (repoSummary, None)
        else
          err <- deleteImages client repoName toDelete ;;
          match err with
          | Some e => ret (repoSummary, Some e)
          | None => ret (repoSummary, None)
          end
  end.

(** The [for _, repo := range repos] loop of [CleanupWithClient]. *)
Fixpoint processRepositories (fuel : nat) (client : ECRClient St)
         (cfg : Config) (repos : list Repository) (summary : CleanupSummary)
  : M St CleanupSummary :=
  match repos with
  | [] => ret summary
  | repo :: rest =>
      repoName <- deref (RepositoryName repo) ;;
      '(repoSummary, err) <- processRepository fuel client repoName cfg ;;
      match err with
      | Some _ => processRepositories fuel client cfg rest summary
      | None =>
          processRepositories fuel client cfg rest
            {| RepositoriesProcessed := RepositoriesProcessed summary;
               ImagesDeleted :=
                 int_add (ImagesDeleted summary) (ImagesDeleted repoSummary);
               SpaceFreed :=
                 int_add (SpaceFreed summary) (SpaceFreed repoSummary) |}
      end
  end.

Definition CleanupWithClient (fuel : nat) (cfg : Config) (client : ECRClient St)
  : M St (CleanupSummary * option error) :=
  let summary := {| RepositoriesProcessed := 0;
                    ImagesDeleted := 0;
                    SpaceFreed := 0 |} in
  '(repos, err) <- getRepositories fuel client ;;
  match err with
  | Some e => ret (summary, Some e)
  | None =>
      summary <- processRepositories fuel client cfg repos
                   {| RepositoriesProcessed := Z.of_nat (length repos);
                      ImagesDeleted := 0;
                      SpaceFreed := 0 |} ;;
      ret (summary, None)
  end.

End Program.

(** ** The mock client of the test suite *)

Record MockECRClient := {
  m_DescribeRepositoriesOutput : option DescribeRepositoriesOutput;
  m_ListImagesOutput : option ListImagesOutput;
  m_DescribeImagesOutput : option DescribeImagesOutput;
  m_BatchDeleteImageOutput : option BatchDeleteImageOutput;
  m_DescribeRepositoriesError : option error;
  m_ListImagesError : option error;
  m_DescribeImagesError : option error;
  m_BatchDeleteImageError : option error;
  m_DescribeRepositoriesCalls : Z;
  m_ListImagesCalls : Z;
  m_DescribeImagesCalls : Z;
  m_BatchDeleteImageCalls : Z;
  m_LastDescribeRepositoriesInput : option DescribeRepositoriesInput;
  m_LastListImagesInput : option ListImagesInput;
  m_LastDescribeImagesInput : option DescribeImagesInput;
  m_LastBatchDeleteImageInput : option BatchDeleteImageInput;
  m_NextDescribeRepositoriesOutput : option DescribeRepositoriesOutput
}.

(** The two bookkeeping assignments that open each mock method. *)
Definition noteDescribeRepositories (params : DescribeRepositoriesInput)
           (m : MockECRClient) : MockECRClient :=
  {| m_DescribeRepositoriesOutput := m_DescribeRepositoriesOutput m;
     m_ListImagesOutput := m_ListImagesOutput m;
     m_DescribeImagesOutput := m_DescribeImagesOutput m;
     m_BatchDeleteImageOutput := m_BatchDeleteImageOutput m;
     m_DescribeRepositoriesError := m_DescribeRepositoriesError m;
     m_ListImagesError := m_ListImagesError m;
     m_DescribeImagesError := m_DescribeImagesError m;
     m_BatchDeleteImageError := m_BatchDeleteImageError m;
     m_DescribeRepositoriesCalls := int_add (m_DescribeRepositoriesCalls m) 1;
     m_ListImagesCalls := m_ListImagesCalls m;
     m_DescribeImagesCalls := m_DescribeImagesCalls m;
     m_BatchDeleteImageCalls := m_BatchDeleteImageCalls m;
     m_LastDescribeRepositoriesInput := Some params;
     m_LastListImagesInput := m_LastListImagesInput m;
     m_LastDescribeImagesInput := m_LastDescribeImagesInput m;
     m_LastBatchDeleteImageInput := m_LastBatchDeleteImageInput m;
     m_NextDescribeRepositoriesOutput := m_NextDescribeRepositoriesOutput m |}.

Definition noteListImages (params : ListImagesInput) (m : MockECRClient)
  : MockECRClient :=
  {| m_DescribeRepositoriesOutput := m_DescribeRepositoriesOutput m;
     m_ListImagesOutput := m_ListImagesOutput m;
     m_DescribeImagesOutput := m_DescribeImagesOutput m;
     m_BatchDeleteImageOutput := m_BatchDeleteImageOutput m;
     m_DescribeRepositoriesError := m_DescribeRepositoriesError m;
     m_ListImagesError := m_ListImagesError m;
     m_DescribeImagesError := m_DescribeImagesError m;
     m_BatchDeleteImageError := m_BatchDeleteImageError m;
     m_DescribeRepositoriesCalls := m_DescribeRepositoriesCalls m;
     m_ListImagesCalls := int_add (m_ListImagesCalls m) 1;
     m_DescribeImagesCalls := m_DescribeImagesCalls m;
     m_BatchDeleteImageCalls := m_BatchDeleteImageCalls m;
     m_LastDescribeRepositoriesInput := m_LastDescribeRepositoriesInput m;
     m_LastListImagesInput := Some params;
     m_LastDescribeImagesInput := m_LastDescribeImagesInput m;
     m_LastBatchDeleteImageInput := m_LastBatchDeleteImageInput m;
     m_NextDescribeRepositoriesOutput := m_NextDescribeRepositoriesOutput m |}.

Definition noteDescribeImages (params : DescribeImagesInput) (m : MockECRClient)
  : MockECRClient :=
  {| m_DescribeRepositoriesOutput := m_DescribeRepositoriesOutput m;
     m_ListImagesOutput := m_ListImagesOutput m;
     m_DescribeImagesOutput := m_DescribeImagesOutput m;
     m_BatchDeleteImageOutput := m_BatchDeleteImageOutput m;
     m_DescribeRepositoriesError := m_DescribeRepositoriesError m;
     m_ListImagesError := m_ListImagesError m;
     m_DescribeImagesError := m_DescribeImagesError m;
     m_BatchDeleteImageError := m_BatchDeleteImageError m;
     m_DescribeRepositoriesCalls := m_DescribeRepositoriesCalls m;
     m_ListImagesCalls := m_ListImagesCalls m;
     m_DescribeImagesCalls := int_add (m_DescribeImagesCalls m) 1;
     m_BatchDeleteImageCalls := m_BatchDeleteImageCalls m;
     m_LastDescribeRepositoriesInput := m_LastDescribeRepositoriesInput m;
     m_LastListImagesInput := m_LastListImagesInput m;
     m_LastDescribeImagesInput := Some params;
     m_LastBatchDeleteImageInput := m_LastBatchDeleteImageInput m;
     m_NextDescribeRepositoriesOutput := m_NextDescribeRepositoriesOutput m |}.

Definition noteBatchDeleteImage (params : BatchDeleteImageInput)
           (m : MockECRClient) : MockECRClient :=
  {| m_DescribeRepositoriesOutput := m_DescribeRepositoriesOutput m;
     m_ListImagesOutput := m_ListImagesOutput m;
     m_DescribeImagesOutput := m_DescribeImagesOutput m;
     m_BatchDeleteImageOutput := m_BatchDeleteImageOutput m;
     m_DescribeRepositoriesError := m_DescribeRepositoriesError m;
     m_ListImagesError := m_ListImagesError m;
     m_DescribeImagesError := m_DescribeImagesError m;
     m_BatchDeleteImageError := m_BatchDeleteImageError m;
     m_DescribeRepositoriesCalls := m_DescribeRepositoriesCalls m;
     m_ListImagesCalls := m_ListImagesCalls m;
     m_DescribeImagesCalls := m_DescribeImagesCalls m;
     m_BatchDeleteImageCalls := int_add (m_BatchDeleteImageCalls m) 1;
     m_LastDescribeRepositoriesInput := m_LastDescribeRepositoriesInput m;
     m_LastListImagesInput := m_LastListImagesInput m;
     m_LastDescribeImagesInput := m_LastDescribeImagesInput m;
     m_LastBatchDeleteImageInput := Some params;
     m_NextDescribeRepositoriesOutput := m_NextDescribeRepositoriesOutput m |}.

Definition mockDescribeRepositories
  : Method MockECRClient DescribeRepositoriesInput DescribeRepositoriesOutput :=
  fun params m =>
    let m := noteDescribeRepositories params m in
    match m_DescribeRepositoriesError m with
    | Some e => ((None, Some e), m)
    | None =>
        match m_DescribeRepositoriesOutput m with
        | None => ((None, Some (ServerException "Test server error")), m)
        | Some output =>
            match dri_NextToken params, m_NextDescribeRepositoriesOutput m with
            | Some _, Some next => ((Some next, None), m)
            | _, _ => ((Some output, None), m)
            end
        end
    end.

Definition mockListImages
  : Method MockECRClient ListImagesInput ListImagesOutput :=
  fun params m =>
    let m := noteListImages params m in
    match m_ListImagesError m with
    | Some e => ((None, Some e), m)
    | None => ((m_ListImagesOutput m, None), m)
    end.

Definition mockDescribeImages
  : Method MockECRClient DescribeImagesInput DescribeImagesOutput :=
  fun params m =>
    let m := noteDescribeImages params m in
    match m_DescribeImagesError m with
    | Some e => ((None, Some e), m)
    | None => ((m_DescribeImagesOutput m, None), m)
    end.

Definition mockBatchDeleteImage
  : Method MockECRClient BatchDeleteImageInput BatchDeleteImageOutput :=
  fun params m =>
    let m := noteBatchDeleteImage params m in
    match m_BatchDeleteImageError m with
    | Some e => ((None, Some e), m)
    | None => ((m_BatchDeleteImageOutput m, None), m)
    end.

Definition mockClient : ECRClient MockECRClient := {|
  DescribeRepositories := mockDescribeRepositories;
  ListImages := mockListImages;
  DescribeImages := mockDescribeImages;
  BatchDeleteImage := mockBatchDeleteImage
|}.

(** A second test double, for a transport failure in the middle of a
    deletion: the mock, except that [BatchDeleteImageError] only sets in once
    a first batch-delete call has been served. *)
Definition failingLaterClient : ECRClient MockECRClient := {|
  DescribeRepositories := mockDescribeRepositories;
  ListImages := mockListImages;
  DescribeImages := mockDescribeImages;
  BatchDeleteImage := fun params m =>
    if m_BatchDeleteImageCalls m <? 1
    then ((m_BatchDeleteImageOutput m, None), noteBatchDeleteImage params m)
    else mockBatchDeleteImage params m
|}.

(** A mock with nothing set, as [&MockECRClient{}]. *)
Definition emptyMock : MockECRClient := {|
  m_DescribeRepositoriesOutput := None;
  m_ListImagesOutput := None;
  m_DescribeImagesOutput := None;
  m_BatchDeleteImageOutput := None;
  m_DescribeRepositoriesError := None;
  m_ListImagesError := None;
  m_DescribeImagesError := None;
  m_BatchDeleteImageError := None;
  m_DescribeRepositoriesCalls := 0;
  m_ListImagesCalls := 0;
  m_DescribeImagesCalls := 0;
  m_BatchDeleteImageCalls := 0;
  m_LastDescribeRepositoriesInput := None;
  m_LastListImagesInput := None;
  m_LastDescribeImagesInput := None;
  m_LastBatchDeleteImageInput := None;
  m_NextDescribeRepositoriesOutput := None
|}.

Definition startWorld (m : MockECRClient) : World MockECRClient :=
  {| client_state := m; calls := [] |}.

(** ** Specification-side definitions *)

(** The test of the selection loop on one image. *)
Definition eligible (cutoff : Time) (img : ImageDetail) : bool :=
  match ImagePushedAt img with
  | Some t => Before t cutoff
  | None => false
  end.

(** The consecutive chunks of at most [size] elements of a list; [fuel]
    bounds their number, and [chunks] gives enough. *)
Fixpoint chunksFuel (A : Type) (fuel size : nat) (l : list A)
  : list (list A) :=
  match fuel with
  | O => []
  | S fuel =>
      match l with
      | [] => []
      | _ :: _ => firstn size l :: chunksFuel fuel size (skipn size l)
      end
  end.

Definition chunks (A : Type) (size : nat) (l : list A) : list (list A) :=
  chunksFuel (length l) size l.

(** The batch-delete call for one list of identifiers. *)
Definition batchDeleteCall (repoName : string) (ids : list ImageIdentifier)
  : Call :=
  CallBatchDeleteImage {| bdi_RepositoryName := repoName; bdi_ImageIds := ids |}.

(** The sum of the known sizes, a missing size counting as zero. *)
Definition sumKnownSizes (images : list ImageDetail) : Z :=
  fold_right (fun img acc =>
                match ImageSizeInBytes img with
                | Some size => size + acc
                | None => acc
                end) 0 images.

(** [CleanupSummary{RepositoriesProcessed: 1}], the summary
    [processRepository] starts from. *)
Definition freshRepoSummary : CleanupSummary :=
  {| RepositoriesProcessed := 1; ImagesDeleted := 0; SpaceFreed := 0 |}.

(** The results of the successive [processRepository] calls of the driver's
    loop, as far as they return. *)
Fixpoint repositoryResults {R : GoRuntime} (St : Type) (time_Now : St -> Time)
         (fuel : nat) (client : ECRClient St) (cfg : Config)
         (repos : list Repository) (w : World St)
  : list (CleanupSummary * option error) :=
  match repos with
  | [] => []
  | repo :: rest =>
      match RepositoryName repo with
      | None => []
      | Some repoName =>
          match processRepository time_Now fuel client repoName cfg w with
          | (Done r, w') =>
              r :: repositoryResults time_Now fuel client cfg rest w'
          | _ => []
          end
      end
  end.

(** What one result adds to the aggregate: nothing when it carries an
    error. *)
Definition contributedImages (r : CleanupSummary * option error) : Z :=
  match snd r with
  | Some _ => 0
  | None => ImagesDeleted (fst r)
  end.

Definition contributedSpace (r : CleanupSummary * option error) : Z :=
  match snd r with
  | Some _ => 0
  | None => SpaceFreed (fst r)
  end.

(** A sum in Go's [int] arithmetic. *)
Definition sumInt (l : list Z) : Z := fold_left int_add l 0.

(** The invariant of [insertionSortLessFunc]: in the reversed prefix no
    element is less than a later one. *)
Definition revSorted (A : Type) (less : A -> A -> bool) : list A -> Prop :=
  StronglySorted (fun a b => less a b = false).

(** ** Fixtures of the test suite *)

(** The instant the tests call [now]. *)
Definition testNow : Time := 1700000000 * 1000000000.

Definition daysAgo (d : Z) : Time := testNow - d * nanosPerDay.

(** The images of [TestSelectImagesForDeletion]. *)
Definition image2 : ImageDetail := {|
  ImageDigest := Some "sha256:1"%string; ImageTags := ["latest"%string];
  ImagePushedAt := Some (daysAgo 2); ImageSizeInBytes := Some 1000000 |}.
Definition image8 : ImageDetail := {|
  ImageDigest := Some "sha256:2"%string; ImageTags := ["v2"%string];
  ImagePushedAt := Some (daysAgo 8); ImageSizeInBytes := Some 2000000 |}.
Definition image12 : ImageDetail := {|
  ImageDigest := Some "sha256:3"%string; ImageTags := ["v1"%string];
  ImagePushedAt := Some (daysAgo 12); ImageSizeInBytes := Some 3000000 |}.
Definition image15 : ImageDetail := {|
  ImageDigest := Some "sha256:4"%string; ImageTags := ["old"%string];
  ImagePushedAt := Some (daysAgo 15); ImageSizeInBytes := Some 1500000 |}.

Definition testImages : list ImageDetail := [image2; image8; image12; image15].

(** The image without a push time of the nil-push-time case. *)
Definition imageNilTime : ImageDetail := {|
  ImageDigest := Some "sha256:nil"%string; ImageTags := ["nil-time"%string];
  ImagePushedAt := None; ImageSizeInBytes := None |}.

Definition testConfig (dryRun : bool) (days maxImages : Z) : Config := {|
  DryRun := dryRun; Days := days; Region := ""%string; MaxImages := maxImages |}.





(** The images of [TestProcessRepository]. *)
Definition olderImage : ImageDetail := {|
  ImageDigest := Some "sha256:123"%string; ImageTags := ["v1"%string];
  ImagePushedAt := Some (daysAgo 15); ImageSizeInBytes := Some 1000000 |}.
Definition newerImage : ImageDetail := {|
  ImageDigest := Some "sha256:456"%string; ImageTags := ["latest"%string];
  ImagePushedAt := Some (daysAgo 5); ImageSizeInBytes := Some 2000000 |}.

(** An old image with neither a tag nor a digest. *)
Definition namelessImage : ImageDetail := {|
  ImageDigest := None; ImageTags := [];
  ImagePushedAt := Some (daysAgo 15); ImageSizeInBytes := None |}.

(** A mock registry of the named repositories, each of which lists one page
    of one identifier and describes the given images; batch-delete reports
    no per-item failure, and fails with [deleteError] when that is set. *)
Definition registryMock (names : list string) (details : list ImageDetail)
           (deleteError : option error) : MockECRClient := {|
  m_DescribeRepositoriesOutput :=
    Some {| Repositories :=
              map (fun name => {| RepositoryName := Some name |}) names;
            dro_NextToken := None |};
  m_ListImagesOutput :=
    Some {| ImageIds := [{| Id_ImageTag := Some "v1"%string;
                            Id_ImageDigest := None |}];
            lio_NextToken := None |};
  m_DescribeImagesOutput := Some {| ImageDetails := details |};
  m_BatchDeleteImageOutput :=
    Some {| Failures := []; bdo_ImageIds := [] |};
  m_DescribeRepositoriesError := None;
  m_ListImagesError := None;
  m_DescribeImagesError := None;
  m_BatchDeleteImageError := deleteError;
  m_DescribeRepositoriesCalls := 0;
  m_ListImagesCalls := 0;
  m_DescribeImagesCalls := 0;
  m_BatchDeleteImageCalls := 0;
  m_LastDescribeRepositoriesInput := None;
  m_LastListImagesInput := None;
  m_LastDescribeImagesInput := None;
  m_LastBatchDeleteImageInput := None;
  m_NextDescribeRepositoriesOutput := None
|}.

Definition repoMock (details : list ImageDetail) : MockECRClient :=
  registryMock ["test-repo"%string] details None.

(** Two repositories holding [olderImage] and [newerImage] each, on a
    registry whose batch-delete fails once it has served a first call (with
    [failingLaterClient]). *)
Definition twoRepoMock : MockECRClient :=
  registryMock ["repo1"%string; "repo2"%string] [olderImage; newerImage]
               (Some (ServerException "Delete error")).


(** The clock of the fixtures stands still at [testNow]. *)
Definition testClock : MockECRClient -> Time := fun _ => testNow.

(** A mock whose every page of image identifiers is empty, with the given
    continuation token. *)
Definition emptyPageMock (next : option string) : MockECRClient := {|
  m_DescribeRepositoriesOutput := None;
  m_ListImagesOutput := Some {| ImageIds := []; lio_NextToken := next |};
  m_DescribeImagesOutput := Some {| ImageDetails := [] |};
  m_BatchDeleteImageOutput := None;
  m_DescribeRepositoriesError := None;
  m_ListImagesError := None;
  m_DescribeImagesError := None;
  m_BatchDeleteImageError := None;
  m_DescribeRepositoriesCalls := 0;
  m_ListImagesCalls := 0;
  m_DescribeImagesCalls := 0;
  m_BatchDeleteImageCalls := 0;
  m_LastDescribeRepositoriesInput := None;
  m_LastListImagesInput := None;
  m_LastDescribeImagesInput := None;
  m_LastBatchDeleteImageInput := None;
  m_NextDescribeRepositoriesOutput := None
|}.

(** ** The production entry point *)

(** The one option [loadAWSConfig] passes on. *)
Inductive LoadOption := WithRegion (region : string).

Section Production.

Context {R : GoRuntime}.
Variable St : Type.
Variable time_Now : St -> Time.

(** [aws.Config], what [config.LoadDefaultConfig] resolves from the options
    and the ambient environment, and [ecr.NewFromConfig]. *)
Variable AwsConfig : Type.
Variable LoadDefaultConfig : list LoadOption -> AwsConfig * option error.
Variable NewFromConfig : AwsConfig -> ECRClient St.

Definition loadAWSConfig (region : string) : AwsConfig * option error :=
  let configOpts : list LoadOption := [] in
  let configOpts :=
    if (region =? "")%string then configOpts
    else configOpts ++ [WithRegion region] in
  LoadDefaultConfig configOpts.

Definition cleanupECR (fuel : nat) (cfg : Config)
  : M St (CleanupSummary * option error) :=
  let summary := {| RepositoriesProcessed := 0;
                    ImagesDeleted := 0;
                    SpaceFreed := 0 |} in
  let '(awsConfig, err) := loadAWSConfig (Region cfg) in
  match err with
  | Some e => ret (summary, Some (Errorf "failed to load AWS config" e))
  | None =>
      let client := NewFromConfig awsConfig in
      '(repos, err) <- getRepositories fuel client ;;
      match err with
      | Some e => ret (summary, Some (Errorf "failed to get repositories" e))
      | None =>
          summary <- processRepositories time_Now fuel client cfg repos
                       {| RepositoriesProcessed := Z.of_nat (length repos);
                          ImagesDeleted := 0;
                          SpaceFreed := 0 |} ;;
          ret (summary, None)
      end
  end.

End Production.

(** ** Pagination, as a registry serves it *)

(** The calls of [getRepositories] for a run of pages, the first asked for
    with [token]. *)
Fixpoint repositoryPageCalls (token : option string)
         (pages : list DescribeRepositoriesOutput) : list Call :=
  match pages with
  | [] => []
  | page :: rest =>
      CallDescribeRepositories {| dri_NextToken := token |}
      :: repositoryPageCalls (dro_NextToken page) rest
  end.

(** From state [s], asked with [token], the client serves [pages] in turn,
    each under the continuation token of the one before, the last without a
    token, and ends in state [s']. *)
Inductive repositoryPages (St : Type) (client : ECRClient St)
  : St -> option string -> list DescribeRepositoriesOutput -> St -> Prop :=
| repositoryPages_last (s s' : St) (token : option string)
                       (page : DescribeRepositoriesOutput) :
    DescribeRepositories client {| dri_NextToken := token |} s
    = ((Some page, None), s') ->
    dro_NextToken page = None ->
    repositoryPages client s token [page] s'
| repositoryPages_next (s s1 s' : St) (token : option string) (next : string)
                       (page : DescribeRepositoriesOutput)
                       (pages : list DescribeRepositoriesOutput) :
    DescribeRepositories client {| dri_NextToken := token |} s
    = ((Some page, None), s1) ->
    dro_NextToken page = Some next ->
    repositoryPages client s1 (Some next) pages s' ->
    repositoryPages client s token (page :: pages) s'.

(** One page of images: the identifiers listed and, unless there are none,
    their details described. *)
Inductive imagePage (St : Type) (client : ECRClient St) (repoName : string)
  : St -> option string -> ListImagesOutput -> list ImageDetail -> list Call
    -> St -> Prop :=
| imagePage_empty (s s' : St) (token : option string) (page : ListImagesOutput) :
    ListImages client {| lii_RepositoryName := repoName;
                         lii_NextToken := token |} s
    = ((Some page, None), s') ->
    ImageIds page = [] ->
    imagePage client repoName s token page []
              [CallListImages {| lii_RepositoryName := repoName;
                                 lii_NextToken := token |}] s'
| imagePage_described (s s1 s' : St) (token : option string)
                      (page : ListImagesOutput) (desc : DescribeImagesOutput) :
    ListImages client {| lii_RepositoryName := repoName;
                         lii_NextToken := token |} s
    = ((Some page, None), s1) ->
    ImageIds page <> [] ->
    DescribeImages client {| dii_RepositoryName := repoName;
                             dii_ImageIds := ImageIds page |} s1
    = ((Some desc, None), s') ->
    imagePage client repoName s token page (ImageDetails desc)
              [CallListImages {| lii_RepositoryName := repoName;
                                 lii_NextToken := token |};
               CallDescribeImages {| dii_RepositoryName := repoName;
                                     dii_ImageIds := ImageIds page |}] s'.

(** [n] pages of images served in turn, with the details they add up to and
    the calls they take. *)
Inductive imagePages (St : Type) (client : ECRClient St) (repoName : string)
  : St -> option string -> list ImageDetail -> list Call -> St -> nat -> Prop :=
| imagePages_last (s s' : St) (token : option string) (page : ListImagesOutput)
                  (details : list ImageDetail) (cs : list Call) :
    imagePage client repoName s token page details cs s' ->
    lio_NextToken page = None ->
    imagePages client repoName s token details cs s' 1
| imagePages_next (s s1 s' : St) (token : option string) (next : string)
                  (page : ListImagesOutput) (details rest : list ImageDetail)
                  (cs cs' : list Call) (n : nat) :
    imagePage client repoName s token page details cs s1 ->
    lio_NextToken page = Some next ->
    imagePages client repoName s1 (Some next) rest cs' s' n ->
    imagePages client repoName s token (details ++ rest) (cs ++ cs') s' (S n).

(** ** Further fixtures *)

(** The two pages of the "Multiple pages of repositories" test. *)
Definition firstRepositoryPage : DescribeRepositoriesOutput := {|
  Repositories := [{| RepositoryName := Some "repo1"%string |}];
  dro_NextToken := Some "page2token"%string |}.

Definition secondRepositoryPage : DescribeRepositoriesOutput := {|
  Repositories := [{| RepositoryName := Some "repo2"%string |}];
  dro_NextToken := None |}.

Definition twoPageMock : MockECRClient := {|
  m_DescribeRepositoriesOutput := Some firstRepositoryPage;
  m_ListImagesOutput := None;
  m_DescribeImagesOutput := None;
  m_BatchDeleteImageOutput := None;
  m_DescribeRepositoriesError := None;
  m_ListImagesError := None;
  m_DescribeImagesError := None;
  m_BatchDeleteImageError := None;
  m_DescribeRepositoriesCalls := 0;
  m_ListImagesCalls := 0;
  m_DescribeImagesCalls := 0;
  m_BatchDeleteImageCalls := 0;
  m_LastDescribeRepositoriesInput := None;
  m_LastListImagesInput := None;
  m_LastDescribeImagesInput := None;
  m_LastBatchDeleteImageInput := None;
  m_NextDescribeRepositoriesOutput := Some secondRepositoryPage
|}.

(** ** Requests within the limits of the registry *)

(** A [DescribeImages] request names at least one image (without any it
    would describe the whole repository), and a [BatchDeleteImage] request
    between 1 and 100. *)
Definition withinLimits (c : Call) : Prop :=
  match c with
  | CallDescribeImages p => dii_ImageIds p <> []
  | CallBatchDeleteImage p => (1 <= length (bdi_ImageIds p) <= 100)%nat
  | _ => True
  end.

Definition isDescribeRepositories (c : Call) : bool :=
  match c with
  | CallDescribeRepositories _ => true
  | _ => false
  end.

Definition isListImages (c : Call) : bool :=
  match c with
  | CallListImages _ => true
  | _ => false
  end.

(** The number of calls of one kind in a trace, as a Go [int]. *)
Definition countCalls (kind : Call -> bool) (tr : list Call) : Z :=
  wrap64 (Z.of_nat (length (filter kind tr))).

(** The mock counts right for the trace [tr]. *)
Definition countersMatch (m : MockECRClient) (tr : list Call) : Prop :=
  m_DescribeRepositoriesCalls m = countCalls isDescribeRepositories tr /\
  m_ListImagesCalls m = countCalls isListImages tr /\
  m_DescribeImagesCalls m = countCalls isDescribeImages tr /\
  m_BatchDeleteImageCalls m = countCalls isBatchDelete tr.

(** ** Selection, seen through the push times alone *)

(** [pushedLess] and the age test depend on an image only through its push
    time. *)
Definition pushedAtLess (a b : option Time) : bool :=
  match a with
  | None => false
  | Some ta =>
      match b with
      | None => true
      | Some tb => After ta tb
      end
  end.

Definition eligibleAt (cutoff : Time) (pushedAt : option Time) : bool :=
  match pushedAt with
  | Some t => Before t cutoff
  | None => false
  end.

(** A mock whose every page of repositories carries a continuation token. *)
Definition repeatingPageMock : MockECRClient := {|
  m_DescribeRepositoriesOutput := Some firstRepositoryPage;
  m_ListImagesOutput := None;
  m_DescribeImagesOutput := None;
  m_BatchDeleteImageOutput := None;
  m_DescribeRepositoriesError := None;
  m_ListImagesError := None;
  m_DescribeImagesError := None;
  m_BatchDeleteImageError := None;
  m_DescribeRepositoriesCalls := 0;
  m_ListImagesCalls := 0;
  m_DescribeImagesCalls := 0;
  m_BatchDeleteImageCalls := 0;
  m_LastDescribeRepositoriesInput := None;
  m_LastListImagesInput := None;
  m_LastDescribeImagesInput := None;
  m_LastBatchDeleteImageInput := None;
  m_NextDescribeRepositoriesOutput := None
|}.

(** The mock of the "Deletion failures" test: a batch-delete answer that
    reports one image as not found. *)
Definition itemFailureMock : MockECRClient := {|
  m_DescribeRepositoriesOutput := None;
  m_ListImagesOutput := None;
  m_DescribeImagesOutput := None;
  m_BatchDeleteImageOutput :=
    Some {| Failures :=
              [{| FailureCode := "ImageNotFound";
                  FailureReason := Some "Image not found"%string;
                  ImageId := Some {| Id_ImageTag := None;
                                     Id_ImageDigest :=
                                       Some "sha256:123"%string |} |}];
            bdo_ImageIds := [{| Id_ImageTag := Some "v1"%string;
                                Id_ImageDigest := None |}] |};
  m_DescribeRepositoriesError := None;
  m_ListImagesError := None;
  m_DescribeImagesError := None;
  m_BatchDeleteImageError := None;
  m_DescribeRepositoriesCalls := 0;
  m_ListImagesCalls := 0;
  m_DescribeImagesCalls := 0;
  m_BatchDeleteImageCalls := 0;
  m_LastDescribeRepositoriesInput := None;
  m_LastListImagesInput := None;
  m_LastDescribeImagesInput := None;
  m_LastBatchDeleteImageInput := None;
  m_NextDescribeRepositoriesOutput := None
|}.

(** A mock whose [DescribeImages] fails, as in the "Describe images error"
    test. *)
Definition describeErrorMock : MockECRClient := {|
  m_DescribeRepositoriesOutput :=
    Some {| Repositories := [{| RepositoryName := Some "test-repo"%string |}];
            dro_NextToken := None |};
  m_ListImagesOutput :=
    Some {| ImageIds := [{| Id_ImageTag := Some "latest"%string;
                            Id_ImageDigest := None |}];
            lio_NextToken := None |};
  m_DescribeImagesOutput := Some {| ImageDetails := [] |};
  m_BatchDeleteImageOutput := None;
  m_DescribeRepositoriesError := None;
  m_ListImagesError := None;
  m_DescribeImagesError := Some (ServerException "Describe error");
  m_BatchDeleteImageError := None;
  m_DescribeRepositoriesCalls := 0;
  m_ListImagesCalls := 0;
  m_DescribeImagesCalls := 0;
  m_BatchDeleteImageCalls := 0;
  m_LastDescribeRepositoriesInput := None;
  m_LastListImagesInput := None;
  m_LastDescribeImagesInput := None;
  m_LastBatchDeleteImageInput := None;
  m_NextDescribeRepositoriesOutput := None
|}.

(** The repository a call is about; [DescribeRepositories] is about none. *)
Definition callRepository (c : Call) : option string :=
  match c with
  | CallDescribeRepositories _ => None
  | CallListImages p => Some (lii_RepositoryName p)
  | CallDescribeImages p => Some (dii_RepositoryName p)
  | CallBatchDeleteImage p => Some (bdi_RepositoryName p)
  end.

(** ** Calendar days of twenty-four hours *)


(** * Properties *)

(** ** Machine integers *)

Lemma wrap64_in_range (z : Z) : in_int64 (wrap64 z).
Proof.
  unfold in_int64, wrap64.
  pose proof (Z.mod_pos_bound (z + 2 ^ 63) (2 ^ 64) ltac:(lia)). lia.
Qed.

Lemma wrap64_small (z : Z) : in_int64 z -> wrap64 z = z.
Proof.
  unfold in_int64, wrap64. intros Hz.
  rewrite Z.mod_small by lia. lia.
Qed.

Lemma wrap64_add_l (a b : Z) : wrap64 (wrap64 a + b) = wrap64 (a + b).
Proof.
  unfold wrap64.
  replace ((a + 2 ^ 63) mod 2 ^ 64 - 2 ^ 63 + b + 2 ^ 63)
    with ((a + 2 ^ 63) mod 2 ^ 64 + b) by lia.
  rewrite Zplus_mod_idemp_l.
  replace (a + 2 ^ 63 + b) with (a + b + 2 ^ 63) by lia. reflexivity.
Qed.

(** ** The comparison of [sortImagesByPushedTime] is a strict weak order *)

Lemma pushedLess_swo : StrictWeakOrder pushedLess.
Proof.
  constructor; unfold pushedLess, After.
  - intros a. destruct (ImagePushedAt a); [lia | reflexivity].
  - intros a b c.
    destruct (ImagePushedAt a), (ImagePushedAt b), (ImagePushedAt c);
      try discriminate; try reflexivity; lia.
  - intros a b c.
    destruct (ImagePushedAt a), (ImagePushedAt b), (ImagePushedAt c);
      try discriminate; intros; split; try reflexivity; lia.
Qed.

(** ** Insertion sort meets the contract of [sort.Slice] *)

Section InsertionSort.

Variable A : Type.
Variable less : A -> A -> bool.

Lemma insertLeft_perm (x : A) (l : list A) :
  Permutation (x :: l) (insertLeft less x l).
Proof.
  induction l as [|y l IH]; simpl; [reflexivity|].
  destruct (less x y); [|reflexivity].
  rewrite perm_swap. now constructor.
Qed.

Lemma insertionFold_perm (l acc : list A) :
  Permutation (rev acc ++ l)
              (rev (fold_left (fun p x => insertLeft less x p) l acc)).
Proof.
  revert acc. induction l as [|x l IH]; intros acc; simpl.
  - now rewrite app_nil_r.
  - rewrite <- IH.
    rewrite <- (Permutation_rev (insertLeft less x acc)), <- insertLeft_perm.
    rewrite <- (Permutation_rev acc).
    simpl. symmetry. apply Permutation_middle.
Qed.

Lemma insertionSortLessFunc_perm (l : list A) :
  Permutation l (insertionSortLessFunc less l).
Proof. exact (insertionFold_perm l []). Qed.

Hypothesis less_swo : StrictWeakOrder less.

(** In a strict weak order, "not less" is transitive. *)
Lemma not_less_trans (a b c : A) :
  less a b = false -> less b c = false -> less a c = false.
Proof.
  intros Hab Hbc. destruct (less a c) eqn:Hac; [|reflexivity].
  destruct (less b a) eqn:Hba.
  { rewrite (swo_trans less_swo _ _ _ Hba Hac) in Hbc. discriminate. }
  destruct (less c b) eqn:Hcb.
  { rewrite (swo_trans less_swo _ _ _ Hac Hcb) in Hab. discriminate. }
  destruct (swo_incomp less_swo _ _ _ Hab Hba Hbc Hcb) as [H _].
  congruence.
Qed.

Lemma less_asym (a b : A) : less a b = true -> less b a = false.
Proof.
  intros Hab. destruct (less b a) eqn:Hba; [|reflexivity].
  pose proof (swo_trans less_swo _ _ _ Hab Hba) as H.
  rewrite (swo_irrefl less_swo) in H. discriminate.
Qed.

Lemma insertLeft_sorted (x : A) (p : list A) :
  revSorted less p -> revSorted less (insertLeft less x p).
Proof.
  unfold revSorted. induction 1 as [|y p Hp IH Hy]; simpl.
  - constructor; constructor.
  - destruct (less x y) eqn:Hxy.
    + constructor; [exact IH|].
      rewrite <- (insertLeft_perm x p).
      constructor; [now apply less_asym | exact Hy].
    + constructor; [now constructor|].
      constructor; [exact Hxy|].
      eapply Forall_impl; [|exact Hy].
      intros z Hyz. exact (not_less_trans Hxy Hyz).
Qed.

Lemma insertionFold_sorted (l acc : list A) :
  revSorted less acc ->
  revSorted less (fold_left (fun p x => insertLeft less x p) l acc).
Proof.
  revert acc. induction l as [|x l IH]; intros acc Hacc; simpl; [exact Hacc|].
  apply IH. now apply insertLeft_sorted.
Qed.

Lemma StronglySorted_snoc (Rel : A -> A -> Prop) (l : list A) (x : A) :
  StronglySorted Rel l -> Forall (fun y => Rel y x) l ->
  StronglySorted Rel (l ++ [x]).
Proof.
  induction 1 as [|y l Hl IH Hy]; intros Hx; simpl.
  - constructor; constructor.
  - inversion Hx; subst. constructor; [now apply IH|].
    apply Forall_app. split; [exact Hy | now constructor].
Qed.

Lemma StronglySorted_rev (Rel : A -> A -> Prop) (l : list A) :
  StronglySorted Rel l -> StronglySorted (fun a b => Rel b a) (rev l).
Proof.
  induction 1 as [|y l Hl IH Hy]; simpl; [constructor|].
  apply StronglySorted_snoc; [exact IH|].
  apply Forall_rev. exact Hy.
Qed.

Lemma insertionSortLessFunc_sorted (l : list A) :
  StronglySorted (fun a b => less b a = false) (insertionSortLessFunc less l).
Proof.
  unfold insertionSortLessFunc.
  apply (StronglySorted_rev (Rel := fun a b => less a b = false)).
  apply insertionFold_sorted. constructor.
Qed.

End InsertionSort.

Lemma utcRuntime_ok : GoRuntimeOk utcRuntime.
Proof.
  constructor; simpl.
  - intros. apply insertionSortLessFunc_perm.
  - intros. now apply insertionSortLessFunc_sorted.
Qed.


(** ** Image Selector *)

Lemma StronglySorted_nth_error (A : Type) (Rel : A -> A -> Prop) (l : list A) :
  StronglySorted Rel l ->
  forall i j a b, (i < j)%nat ->
    nth_error l i = Some a -> nth_error l j = Some b -> Rel a b.
Proof.
  induction 1 as [|x l Hl IH Hx]; intros i j a b Hij Hi Hj.
  - destruct i; discriminate.
  - destruct j as [|j]; [lia|]. simpl in Hj.
    destruct i as [|i]; simpl in Hi.
    + injection Hi as <-. rewrite Forall_forall in Hx.
      apply Hx. eapply nth_error_In; eassumption.
    + apply (IH i j); [lia | assumption | assumption].
Qed.

(** C6. After [sortImagesByPushedTime] the slice holds the same images, of
    two images with known push times the earlier-placed one was pushed no
    earlier than the later-placed one, and no image without a push time is
    placed before an image with one. *)
Theorem sortImagesByPushedTime_newest_first
        (R : GoRuntime) (R_ok : GoRuntimeOk R) (images : list ImageDetail) :
  let sorted := sortImagesByPushedTime images in
  Permutation images sorted /\
  forall i j a b, (i < j)%nat ->
    nth_error sorted i = Some a -> nth_error sorted j = Some b ->
    (forall ta tb, ImagePushedAt a = Some ta -> ImagePushedAt b = Some tb ->
                   tb <= ta) /\
    (ImagePushedAt a = None -> ImagePushedAt b = None).
Proof.
  intros sorted. split; [apply (sort_Slice_perm R_ok)|].
  intros i j a b Hij Hi Hj.
  pose proof (StronglySorted_nth_error
                (sort_Slice_sorted R_ok pushedLess_swo images) Hij Hi Hj) as H.
  simpl in H. unfold pushedLess, After in H.
  split.
  - intros ta tb Ha Hb. rewrite Ha, Hb in H. lia.
  - intros Ha. rewrite Ha in H.
    destruct (ImagePushedAt b); [discriminate | reflexivity].
Qed.

Lemma sortImagesByPushedTime_newest_first_witness :
  (0 < 1)%nat /\
  nth_error (sortImagesByPushedTime (R := utcRuntime)
               [imageNilTime; image15; image2]) 0 = Some image2 /\
  nth_error (sortImagesByPushedTime (R := utcRuntime)
               [imageNilTime; image15; image2]) 1 = Some image15 /\
  daysAgo 15 <= daysAgo 2.
Proof.
  split; [lia|]. split; [reflexivity|]. split; [reflexivity|].
  exact (proj1 (proj2 (sortImagesByPushedTime_newest_first
                         utcRuntime_ok [imageNilTime; image15; image2])
                      0%nat 1%nat image2 image15 ltac:(lia) eq_refl eq_refl)
               (daysAgo 2) (daysAgo 15) eq_refl eq_refl).
Defined.

Lemma selectLoop_filter (cutoff : Time) (keep : Z) (imgs : list ImageDetail) :
  forall i toDelete,
    selectLoop cutoff keep i imgs toDelete =
    toDelete ++ filter (eligible cutoff) (skipn (Z.to_nat (keep - i)) imgs).
Proof.
  induction imgs as [|img rest IH]; intros i toDelete; simpl.
  - now rewrite skipn_nil, app_nil_r.
  - destruct (i <? keep) eqn:Hi.
    + rewrite IH.
      replace (Z.to_nat (keep - i)) with (S (Z.to_nat (keep - (i + 1)))) by lia.
      reflexivity.
    + replace (Z.to_nat (keep - i)) with O by lia. cbn [skipn filter].
      assert (He : eligible cutoff img =
                   match ImagePushedAt img with
                   | Some t => Before t cutoff
                   | None => false
                   end) by reflexivity.
      rewrite He.
      destruct (ImagePushedAt img) as [t|]; [destruct (Before t cutoff)|];
        rewrite IH; replace (Z.to_nat (keep - (i + 1))) with O by lia;
        cbn [skipn]; [now rewrite <- app_assoc | reflexivity | reflexivity].
Qed.

(** The deletion set is the sorted slice, without its first [keepCount]
    images, filtered by the age test. *)
Lemma selectImagesForDeletion_filter
      (R : GoRuntime) (images : list ImageDetail) (cfg : Config) (t : Time) :
  selectImagesForDeletion images cfg t =
  filter (eligible (cutoffTime cfg t))
         (skipn (Z.to_nat (keepCount cfg (length (sortImagesByPushedTime images))))
                (sortImagesByPushedTime images)).
Proof.
  unfold selectImagesForDeletion. rewrite selectLoop_filter.
  now rewrite Z.sub_0_r.
Qed.

Lemma keepCount_min (cfg : Config) (n : nat) :
  keepCount cfg n =
  if 0 <? MaxImages cfg then Z.min (MaxImages cfg) (Z.of_nat n) else 0.
Proof.
  unfold keepCount.
  destruct (MaxImages cfg >? 0) eqn:H1, (0 <? MaxImages cfg) eqn:H2; try lia.
  destruct (MaxImages cfg >? Z.of_nat n) eqn:H3; lia.
Qed.

Lemma In_skipn_rank (A : Type) (x : A) (k : nat) (l : list A) :
  In x (skipn k l) <->
  exists rank, nth_error l rank = Some x /\ (k <= rank)%nat.
Proof.
  split.
  - intros H. apply In_nth_error in H. destruct H as [n Hn].
    rewrite nth_error_skipn in Hn. exists (k + n)%nat. split; [exact Hn | lia].
  - intros [rank [Hr Hk]].
    apply nth_error_In with (n := (rank - k)%nat).
    rewrite nth_error_skipn. now replace (k + (rank - k))%nat with rank by lia.
Qed.



(** C2. An image without a push time is never in the deletion set, whatever
    its rank. *)
Theorem selectImagesForDeletion_unknown_time_safe
        (R : GoRuntime) (images : list ImageDetail) (cfg : Config) (t0 : Time)
        (img : ImageDetail) :
  ImagePushedAt img = None ->
  ~ In img (selectImagesForDeletion images cfg t0).
Proof.
  intros Hnil Hin. rewrite selectImagesForDeletion_filter in Hin.
  apply filter_In in Hin. destruct Hin as [_ He].
  unfold eligible in He. rewrite Hnil in He. discriminate.
Qed.

Lemma selectImagesForDeletion_unknown_time_safe_witness :
  nth_error (sortImagesByPushedTime (R := utcRuntime) [imageNilTime; image15]) 1
  = Some imageNilTime /\
  keepCount (testConfig false 10 1) 2 = 1 /\
  ~ In imageNilTime
      (selectImagesForDeletion (R := utcRuntime)
         [imageNilTime; image15] (testConfig false 10 1) testNow).
Proof.
  split; [reflexivity|]. split; [reflexivity|].
  exact (selectImagesForDeletion_unknown_time_safe
           utcRuntime [imageNilTime; image15] (testConfig false 10 1) testNow
           imageNilTime eq_refl).
Defined.

(** ** Chunking *)

Section Chunks.

Variable A : Type.
Variable size : nat.
Hypothesis size_pos : (0 < size)%nat.


Lemma chunksFuel_concat (fuel : nat) (l : list A) :
  (length l <= fuel)%nat -> concat (chunksFuel fuel size l) = l.
Proof.
  revert l. induction fuel as [|fuel IH]; intros l Hl; simpl.
  - destruct l; [reflexivity | simpl in Hl; lia].
  - destruct l as [|x l]; [reflexivity|].
    cbn [concat]. rewrite IH; [apply firstn_skipn|].
    rewrite length_skipn. cbn [length] in Hl |- *. lia.
Qed.



End Chunks.

(** ** Batch Deleter *)

Section BatchDeleter.

Variable St : Type.
Variable client : ECRClient St.
Variable repoName : string.

(** Logging the per-item failures issues no call; it returns or panics. *)
Lemma forEach_logFailure (failures : list ImageFailure) (w : World St) :
  forEach (@logFailure St) failures w = (Done tt, w) \/
  forEach (@logFailure St) failures w = (Panic, w).
Proof.
  induction failures as [|f failures IH]; simpl; [now left|].
  unfold bind, logFailure, deref.
  destruct (FailureReason f); simpl; [exact IH | now right].
Qed.

Lemma batch_identifiers (images : list ImageDetail) (i : nat) :
  map imageIdentifier
      (firstn ((if (length images <? i + batchSize)%nat
                then length images else (i + batchSize)%nat) - i)
              (skipn i images)) =
  firstn batchSize (skipn i (map imageIdentifier images)).
Proof.
  rewrite skipn_map, firstn_map. f_equal.
  destruct (length images <? i + batchSize)%nat eqn:H.
  - apply Nat.ltb_lt in H.
    rewrite !firstn_all2; [reflexivity | |]; rewrite length_skipn; lia.
  - f_equal. lia.
Qed.

Lemma deleteImagesFrom_trace (images : list ImageDetail) :
  forall n i w o w',
    (length images - i <= n)%nat ->
    deleteImagesFrom n client repoName images i w = (o, w') ->
    let batches := chunksFuel n batchSize (skipn i (map imageIdentifier images)) in
    exists k,
      (k <= length batches)%nat /\
      calls w' = calls w ++ map (batchDeleteCall repoName) (firstn k batches) /\
      o <> OutOfFuel /\
      (o = Done None -> k = length batches) /\
      (forall e, o = Done (Some e) -> (1 <= k)%nat).
Proof.
  pose proof (eq_refl : batchSize = 100%nat) as Hsize.
  induction n as [|n IH]; intros i w o w' Hn Hrun batches; subst batches.
  - simpl in Hrun.
    replace (i <? length images)%nat with false in Hrun
      by (symmetry; apply Nat.ltb_ge; lia).
    injection Hrun as <- <-. exists O. simpl.
    rewrite app_nil_r. repeat split; try discriminate; lia.
  - cbn [deleteImagesFrom] in Hrun.
    destruct (i <? length images)%nat eqn:Hi.
    + apply Nat.ltb_lt in Hi.
      assert (Hne : exists x rest, skipn i (map imageIdentifier images) = x :: rest).
      { destruct (skipn i (map imageIdentifier images)) as [|x rest] eqn:E;
          [|now eauto].
        apply (f_equal (@length _)) in E.
        rewrite length_skipn, length_map in E. simpl in E. lia. }
      destruct Hne as [x [rest Hne]].
      cbn [chunksFuel]. rewrite Hne, <- Hne, skipn_skipn.
      rewrite batch_identifiers in Hrun.
      unfold bind at 1, invoke in Hrun.
      match type of Hrun with
      | context [BatchDeleteImage client ?p ?s] =>
          destruct (BatchDeleteImage client p s) as [[result err] s1]
      end.
      destruct err as [e|].
      { injection Hrun as <- <-. exists 1%nat. cbn.
        repeat split; try discriminate; lia. }
      unfold bind at 1, deref in Hrun.
      destruct result as [result|]; unfold ret, panic in Hrun.
      2:{ injection Hrun as <- <-. exists 1%nat. cbn.
          repeat split; try discriminate; lia. }
      unfold bind at 1 in Hrun.
      match type of Hrun with
      | context [forEach _ ?fs ?w0] =>
          destruct (forEach_logFailure fs w0) as [Hlog|Hlog]; rewrite Hlog in Hrun
      end.
      2:{ injection Hrun as <- <-. exists 1%nat. cbn.
          repeat split; try discriminate; lia. }
      apply IH in Hrun; [|lia].
      destruct Hrun as [k [Hk [Hcalls [Hfuel [Hnil Herr]]]]].
      rewrite (Nat.add_comm i batchSize) in *.
      exists (S k). cbn [length firstn map]. simpl calls in Hcalls.
      rewrite Hcalls, <- app_assoc. cbn [app].
      repeat split; try assumption; try lia.
      intros Ho. now rewrite (Hnil Ho).
    + injection Hrun as <- <-. exists O.
      apply Nat.ltb_ge in Hi.
      rewrite skipn_all2 by (rewrite length_map; lia). simpl.
      rewrite app_nil_r. repeat split; try discriminate; lia.
Qed.

End BatchDeleter.




(** ** Repository Processor *)

Lemma deleteBatches_app (tr1 tr2 : list Call) :
  deleteBatches (tr1 ++ tr2) = deleteBatches tr1 ++ deleteBatches tr2.
Proof. apply flat_map_app. Qed.

Lemma spaceFreed_from (toDelete : list ImageDetail) :
  forall acc, in_int64 acc ->
    fold_left (fun acc img =>
                 match ImageSizeInBytes img with
                 | Some size => int_add acc size
                 | None => acc
                 end) toDelete acc
    = wrap64 (acc + sumKnownSizes toDelete).
Proof.
  induction toDelete as [|img rest IH]; intros acc Hacc; simpl.
  - rewrite Z.add_0_r. symmetry. now apply wrap64_small.
  - destruct (ImageSizeInBytes img) as [size|].
    + rewrite IH by apply wrap64_in_range. unfold int_add.
      rewrite wrap64_add_l. f_equal. lia.
    + now apply IH.
Qed.

Lemma spaceFreed_sum (toDelete : list ImageDetail) :
  spaceFreed toDelete = wrap64 (sumKnownSizes toDelete).
Proof.
  unfold spaceFreed. rewrite spaceFreed_from; [reflexivity|].
  unfold in_int64. lia.
Qed.

Section Processor.

Context {R : GoRuntime}.
Variable St : Type.
Variable time_Now : St -> Time.
Variable client : ECRClient St.

(** Fetching the images of a repository issues no batch-delete call. *)
Lemma getImageDetailsLoop_no_delete (repoName : string) (fuel : nat) :
  forall images token w,
    deleteBatches
      (calls (snd (getImageDetailsLoop fuel client repoName images token w)))
    = deleteBatches (calls w).
Proof.
  induction fuel as [|fuel IH]; intros images token w; [reflexivity|].
  cbn [getImageDetailsLoop]. unfold bind at 1, invoke.
  destruct (ListImages client _ (client_state w)) as [[listResp err] s1].
  assert (Hstep : forall tr c, isBatchDelete c = false ->
                    deleteBatches (tr ++ [c]) = deleteBatches tr).
  { intros tr c Hc. rewrite deleteBatches_app.
    destruct c; try discriminate; simpl; apply app_nil_r. }
  destruct err as [e|]; [simpl; now apply Hstep|].
  unfold bind at 1, deref.
  destruct listResp as [listResp|]; [|simpl; now apply Hstep].
  unfold ret at 1. unfold bind at 1.
  destruct (0 <? length (ImageIds listResp))%nat.
  - unfold bind at 1, invoke. cbn [client_state calls].
    destruct (DescribeImages client _ s1) as [[descResp err] s2].
    destruct err as [e|].
    { simpl. rewrite !Hstep by reflexivity. reflexivity. }
    unfold bind at 1, deref.
    destruct descResp as [descResp|]; simpl.
    2:{ rewrite !Hstep by reflexivity. reflexivity. }
    destruct (lio_NextToken listResp); [rewrite IH|]; simpl;
      rewrite !Hstep by reflexivity; reflexivity.
  - simpl. destruct (lio_NextToken listResp); [rewrite IH|]; simpl;
      rewrite !Hstep by reflexivity; reflexivity.
Qed.

Lemma forEach_logDryRun_cons (img : ImageDetail) (rest : list ImageDetail)
      (w : World St) :
  forEach (@logDryRun St) (img :: rest) w =
  match getImageTag img with
  | Done _ => forEach (@logDryRun St) rest w
  | Panic => (Panic, w)
  | OutOfFuel => (OutOfFuel, w)
  end.
Proof.
  cbn [forEach]. unfold bind, logDryRun, lift, ret.
  destruct (getImageTag img); reflexivity.
Qed.

Lemma getImageTag_fuel (img : ImageDetail) : getImageTag img <> OutOfFuel.
Proof.
  unfold getImageTag.
  destruct (ImageTags img); [destruct (ImageDigest img)|]; discriminate.
Qed.

(** Evaluating the dry-run log lines issues no call; it returns or panics. *)
Lemma forEach_logDryRun (toDelete : list ImageDetail) (w : World St) :
  (Forall (fun img => getImageTag img <> Panic) toDelete ->
   forEach (@logDryRun St) toDelete w = (Done tt, w)) /\
  (forEach (@logDryRun St) toDelete w = (Done tt, w) \/
   forEach (@logDryRun St) toDelete w = (Panic, w)).
Proof.
  induction toDelete as [|img rest [IH1 IH2]]; [now split; [|left]|].
  rewrite forEach_logDryRun_cons.
  pose proof (getImageTag_fuel img) as Hfuel.
  destruct (getImageTag img) eqn:Htag.
  - split; [|exact IH2]. intros Hall. inversion Hall; subst. now apply IH1.
  - split; [|now right]. intros Hall. inversion Hall as [|? ? Himg _]; subst.
    now exfalso.
  - now exfalso.
Qed.

End Processor.

Section ProcessRepository.

Context {R : GoRuntime}.
Variable St : Type.
Variable time_Now : St -> Time.
Variable client : ECRClient St.
Variable fuel : nat.
Variable repoName : string.
Variable cfg : Config.

(** [processRepository] once the images are fetched. *)
Lemma processRepository_fetched (w w1 : World St) (images : list ImageDetail) :
  getImageDetails fuel client repoName w = (Done (images, None), w1) ->
  processRepository time_Now fuel client repoName cfg w =
  let toDelete :=
    selectImagesForDeletion images cfg (time_Now (client_state w1)) in
  let summary := {| RepositoriesProcessed := 1;
                    ImagesDeleted := Z.of_nat (length toDelete);
                    SpaceFreed := spaceFreed toDelete |} in
  if (length toDelete =? 0)%nat then (Done (freshRepoSummary, None), w1)
  else if DryRun cfg then
    match forEach (@logDryRun St) toDelete w1 with
    | (Done _, w2) => (Done (summary, None), w2)
    | (Panic, w2) => (Panic, w2)
    | (OutOfFuel, w2) => (OutOfFuel, w2)
    end
  else
    match deleteImages client repoName toDelete w1 with
    | (Done (Some e), w2) => (Done (summary, Some e), w2)
    | (Done None, w2) => (Done (summary, None), w2)
    | (Panic, w2) => (Panic, w2)
    | (OutOfFuel, w2) => (OutOfFuel, w2)
    end.
Proof.
  intros Hfetch. unfold processRepository. unfold bind at 1. rewrite Hfetch.
  unfold bind at 1, readClock. cbv zeta.
  destruct (length _ =? 0)%nat; [reflexivity|].
  destruct (DryRun cfg).
  - unfold bind. destruct (forEach _ _ w1) as [[[]| |] w2]; reflexivity.
  - unfold bind. destruct (deleteImages _ _ _ w1) as [[[e|]| |] w2]; reflexivity.
Qed.

(** [processRepository] when the fetch fails, panics or runs out of fuel. *)
Lemma processRepository_not_fetched (w : World St) :
  processRepository time_Now fuel client repoName cfg w =
  match getImageDetails fuel client repoName w with
  | (Done (_, Some e), w1) =>
      (Done (freshRepoSummary, Some (Errorf "failed to get image details" e)), w1)
  | (Done (_, None), _) => processRepository time_Now fuel client repoName cfg w
  | (Panic, w1) => (Panic, w1)
  | (OutOfFuel, w1) => (OutOfFuel, w1)
  end.
Proof.
  destruct (getImageDetails fuel client repoName w) as [[[images [e|]]| |] w1]
    eqn:Hfetch; try reflexivity;
    unfold processRepository; unfold bind at 1; rewrite Hfetch; reflexivity.
Qed.

End ProcessRepository.

(** C4. In dry-run mode [processRepository] issues no batch-delete call,
    whatever it comes to.  Once the images are fetched, a summary it returns
    carries no error, the number of selected images and the [int64] sum of
    their known sizes (the exact sum when that fits an [int64]); and it does
    return one when every selected image has a tag or a digest to log. *)
Theorem processRepository_dry_run
        (R : GoRuntime) (St : Type) (time_Now : St -> Time)
        (client : ECRClient St) (fuel : nat) (repoName : string)
        (cfg : Config) (w : World St) :
  DryRun cfg = true ->
  let run := processRepository time_Now fuel client repoName cfg w in
  deleteBatches (calls (snd run)) = deleteBatches (calls w) /\
  forall images w1,
    getImageDetails fuel client repoName w = (Done (images, None), w1) ->
    let toDelete :=
      selectImagesForDeletion images cfg (time_Now (client_state w1)) in
    (forall summary err,
        fst run = Done (summary, err) ->
        err = None /\
        ImagesDeleted summary = Z.of_nat (length toDelete) /\
        SpaceFreed summary = wrap64 (sumKnownSizes toDelete) /\
        (in_int64 (sumKnownSizes toDelete) ->
         SpaceFreed summary = sumKnownSizes toDelete)) /\
    (Forall (fun img => getImageTag img <> Panic) toDelete ->
     exists summary, run = (Done (summary, None), w1)).
Proof.
  intros Hdry run. subst run. split.
  - rewrite processRepository_not_fetched.
    pose proof (getImageDetailsLoop_no_delete client repoName fuel [] None w)
      as Hfetch.
    fold (getImageDetails fuel client repoName w) in Hfetch.
    destruct (getImageDetails fuel client repoName w)
      as [[[images [e|]]| |] w1] eqn:Hrun; try exact Hfetch.
    rewrite (processRepository_fetched time_Now _ _ _ cfg _ Hrun). cbv zeta.
    rewrite Hdry.
    destruct (length _ =? 0)%nat; [exact Hfetch|].
    destruct (forEach_logDryRun
                (selectImagesForDeletion images cfg (time_Now (client_state w1)))
                w1) as [_ [Hlog|Hlog]]; rewrite Hlog; exact Hfetch.
  - intros images w1 Hrun toDelete.
    rewrite (processRepository_fetched time_Now _ _ _ cfg _ Hrun). cbv zeta.
    fold toDelete. rewrite Hdry.
    destruct (length toDelete =? 0)%nat eqn:Hlen.
    + apply Nat.eqb_eq in Hlen. apply length_zero_iff_nil in Hlen.
      split; [|intros _; now eexists].
      intros summary err Hret. injection Hret as <- <-.
      rewrite Hlen. simpl. repeat split; reflexivity.
    + destruct (forEach_logDryRun toDelete w1) as [Hok Hlog]. split.
      * intros summary err Hret.
        destruct Hlog as [Hlog|Hlog]; rewrite Hlog in Hret; [|discriminate].
        injection Hret as <- <-. simpl. rewrite spaceFreed_sum.
        repeat split; try reflexivity. intros Hfit. now apply wrap64_small.
      * intros Hall. rewrite (Hok Hall). now eexists.
Qed.

Lemma processRepository_dry_run_witness :
  deleteBatches
    (calls (snd (processRepository (R := utcRuntime) testClock 1 mockClient
                   "test-repo" (testConfig true 10 0)
                   (startWorld (repoMock [olderImage; newerImage]))))) = [] /\
  Z.of_nat (length (selectImagesForDeletion (R := utcRuntime)
                      [olderImage; newerImage] (testConfig true 10 0) testNow))
  = 1 /\
  sumKnownSizes (selectImagesForDeletion (R := utcRuntime)
                   [olderImage; newerImage] (testConfig true 10 0) testNow)
  = 1000000.
Proof.
  destruct (processRepository_dry_run utcRuntime testClock mockClient 1
              "test-repo" (testConfig true 10 0)
              (startWorld (repoMock [olderImage; newerImage])) eq_refl)
    as [Hcalls Hsummary].
  split; [exact Hcalls|].
  destruct (Hsummary [olderImage; newerImage]
              (snd (getImageDetails 1 mockClient "test-repo"
                      (startWorld (repoMock [olderImage; newerImage]))))
              ltac:(vm_compute; reflexivity)) as [Hret _].
  destruct (Hret {| RepositoriesProcessed := 1;
                    ImagesDeleted := 1;
                    SpaceFreed := 1000000 |} None
                 ltac:(vm_compute; reflexivity)) as [_ [Hn [_ Hs]]].
  split; [symmetry; exact Hn|].
  symmetry. apply Hs. vm_compute. split; [discriminate | reflexivity].
Defined.

(** C8, amended.  When the fetched images yield an empty deletion set,
    [processRepository] returns the summary it started from
    ([RepositoriesProcessed] one, the other two counters zero) and a nil
    error, and has issued no batch-delete call. *)
Theorem processRepository_nothing_to_delete
        (R : GoRuntime) (St : Type) (time_Now : St -> Time)
        (client : ECRClient St) (fuel : nat) (repoName : string)
        (cfg : Config) (w w1 : World St) (images : list ImageDetail) :
  getImageDetails fuel client repoName w = (Done (images, None), w1) ->
  selectImagesForDeletion images cfg (time_Now (client_state w1)) = [] ->
  processRepository time_Now fuel client repoName cfg w =
    (Done ({| RepositoriesProcessed := 1; ImagesDeleted := 0; SpaceFreed := 0 |},
           None), w1) /\
  deleteBatches (calls w1) = deleteBatches (calls w).
Proof.
  intros Hfetch Hempty. split.
  - rewrite (processRepository_fetched time_Now _ _ _ cfg _ Hfetch). cbv zeta.
    rewrite Hempty. reflexivity.
  - pose proof (getImageDetailsLoop_no_delete client repoName fuel [] None w) as H.
    fold (getImageDetails fuel client repoName w) in H.
    now rewrite Hfetch in H.
Qed.

Lemma processRepository_nothing_to_delete_witness :
  processRepository (R := utcRuntime) testClock 1 mockClient "test-repo"
    (testConfig false 10 0) (startWorld (repoMock [newerImage]))
  = (Done ({| RepositoriesProcessed := 1; ImagesDeleted := 0; SpaceFreed := 0 |},
           None),
     snd (getImageDetails 1 mockClient "test-repo"
            (startWorld (repoMock [newerImage])))).
Proof.
  exact (proj1 (processRepository_nothing_to_delete
                  utcRuntime testClock mockClient 1 "test-repo"
                  (testConfig false 10 0) (startWorld (repoMock [newerImage]))
                  (images := [newerImage]) eq_refl eq_refl)).
Defined.

(** C8 as stated fails: the summary returned for an empty deletion set has
    [RepositoriesProcessed] at one, not every counter at zero. *)
Lemma processRepository_zero_summary_counterexample :
  selectImagesForDeletion (R := utcRuntime) [newerImage]
    (testConfig false 10 0) testNow = [] /\
  ~ (exists w1,
        processRepository (R := utcRuntime) testClock 1 mockClient "test-repo"
          (testConfig false 10 0) (startWorld (repoMock [newerImage]))
        = (Done ({| RepositoriesProcessed := 0;
                    ImagesDeleted := 0;
                    SpaceFreed := 0 |}, None), w1)).
Proof.
  split; [reflexivity|]. intros [w1 H].
  vm_compute in H. discriminate H.
Qed.

(** C10. When [ListImages] answers with a page without identifiers,
    [getImageDetails] records that one call and no [DescribeImages] call,
    keeps the images gathered so far, and goes on with the continuation token
    of the page, or returns when there is none.  For a repository whose only
    page is empty it returns no image and no error after that single
    [ListImages] call. *)
Theorem getImageDetails_empty_page
        (St : Type) (client : ECRClient St) (repoName : string) (fuel : nat) :
  (forall images token w next s1,
      ListImages client {| lii_RepositoryName := repoName;
                           lii_NextToken := token |} (client_state w)
      = ((Some {| ImageIds := []; lio_NextToken := next |}, None), s1) ->
      let w1 := {| client_state := s1;
                   calls := calls w ++
                            [CallListImages {| lii_RepositoryName := repoName;
                                               lii_NextToken := token |}] |} in
      getImageDetailsLoop (S fuel) client repoName images token w =
      match next with
      | None => (Done (images, None), w1)
      | Some t => getImageDetailsLoop fuel client repoName images (Some t) w1
      end) /\
  (forall w s1,
      ListImages client {| lii_RepositoryName := repoName;
                           lii_NextToken := None |} (client_state w)
      = ((Some {| ImageIds := []; lio_NextToken := None |}, None), s1) ->
      let w1 := {| client_state := s1;
                   calls := calls w ++
                            [CallListImages {| lii_RepositoryName := repoName;
                                               lii_NextToken := None |}] |} in
      getImageDetails (S fuel) client repoName w = (Done ([], None), w1) /\
      filter isDescribeImages (calls w1) = filter isDescribeImages (calls w)).
Proof.
  assert (Hpage : forall images token w next s1,
      ListImages client {| lii_RepositoryName := repoName;
                           lii_NextToken := token |} (client_state w)
      = ((Some {| ImageIds := []; lio_NextToken := next |}, None), s1) ->
      getImageDetailsLoop (S fuel) client repoName images token w =
      match next with
      | None =>
          (Done (images, None),
           {| client_state := s1;
              calls := calls w ++
                       [CallListImages {| lii_RepositoryName := repoName;
                                          lii_NextToken := token |}] |})
      | Some t =>
          getImageDetailsLoop fuel client repoName images (Some t)
            {| client_state := s1;
               calls := calls w ++
                        [CallListImages {| lii_RepositoryName := repoName;
                                           lii_NextToken := token |}] |}
      end).
  { intros images token w next s1 Hlist.
    cbn [getImageDetailsLoop]. unfold bind at 1, invoke. rewrite Hlist.
    unfold bind, deref, ret. cbn [ImageIds length Nat.ltb Nat.leb lio_NextToken].
    destruct next; reflexivity. }
  split; [exact Hpage|].
  intros w s1 Hlist w1. split.
  - unfold getImageDetails. now rewrite (Hpage [] None w None s1 Hlist).
  - subst w1. cbn [calls]. rewrite filter_app. simpl. apply app_nil_r.
Qed.

Lemma getImageDetails_empty_page_witness :
  getImageDetails 1 mockClient "test-repo" (startWorld (emptyPageMock None))
  = (Done ([], None),
     {| client_state :=
          noteListImages {| lii_RepositoryName := "test-repo";
                            lii_NextToken := None |} (emptyPageMock None);
        calls := [CallListImages {| lii_RepositoryName := "test-repo";
                                    lii_NextToken := None |}] |}) /\
  calls (snd (getImageDetails 2 mockClient "test-repo"
                (startWorld (emptyPageMock (Some "page-2"%string)))))
  = [CallListImages {| lii_RepositoryName := "test-repo";
                       lii_NextToken := None |};
     CallListImages {| lii_RepositoryName := "test-repo";
                       lii_NextToken := Some "page-2"%string |}].
Proof.
  split.
  - exact (proj1 (proj2 (getImageDetails_empty_page mockClient "test-repo" 0)
                        (startWorld (emptyPageMock None)) _ eq_refl)).
  - unfold getImageDetails.
    rewrite (proj1 (getImageDetails_empty_page mockClient "test-repo" 1)
                   [] None (startWorld (emptyPageMock (Some "page-2"%string)))
                   (Some "page-2"%string) _ eq_refl).
    reflexivity.
Defined.

(** ** Cleanup Driver *)

Section Driver.

Context {R : GoRuntime}.
Variable St : Type.
Variable time_Now : St -> Time.
Variable client : ECRClient St.
Variable fuel : nat.
Variable cfg : Config.

(** One turn of the loop of [CleanupWithClient]. *)
Lemma processRepositories_cons (repo : Repository) (rest : list Repository)
      (acc : CleanupSummary) (w : World St) :
  processRepositories time_Now fuel client cfg (repo :: rest) acc w =
  match RepositoryName repo with
  | None => (Panic, w)
  | Some repoName =>
      match processRepository time_Now fuel client repoName cfg w with
      | (Done (_, Some _), w') =>
          processRepositories time_Now fuel client cfg rest acc w'
      | (Done (repoSummary, None), w') =>
          processRepositories time_Now fuel client cfg rest
            {| RepositoriesProcessed := RepositoriesProcessed acc;
               ImagesDeleted :=
                 int_add (ImagesDeleted acc) (ImagesDeleted repoSummary);
               SpaceFreed :=
                 int_add (SpaceFreed acc) (SpaceFreed repoSummary) |} w'
      | (Panic, w') => (Panic, w')
      | (OutOfFuel, w') => (OutOfFuel, w')
      end
  end.
Proof.
  cbn [processRepositories]. unfold bind at 1, deref.
  destruct (RepositoryName repo) as [repoName|]; [|reflexivity].
  unfold ret at 1. unfold bind at 1.
  destruct (processRepository time_Now fuel client repoName cfg w)
    as [[[repoSummary [e|]]| |] w']; reflexivity.
Qed.

Lemma processRepositories_aggregate (repos : list Repository) :
  forall acc w summary w',
    in_int64 (ImagesDeleted acc) -> in_int64 (SpaceFreed acc) ->
    processRepositories time_Now fuel client cfg repos acc w = (Done summary, w') ->
    let results := repositoryResults time_Now fuel client cfg repos w in
    length results = length repos /\
    RepositoriesProcessed summary = RepositoriesProcessed acc /\
    ImagesDeleted summary =
      fold_left int_add (map contributedImages results) (ImagesDeleted acc) /\
    SpaceFreed summary =
      fold_left int_add (map contributedSpace results) (SpaceFreed acc).
Proof.
  induction repos as [|repo rest IH]; intros acc w summary w' Hi Hs Hrun.
  - injection Hrun as <- <-. simpl. repeat split; reflexivity.
  - rewrite processRepositories_cons in Hrun. cbn [repositoryResults].
    destruct (RepositoryName repo) as [repoName|]; [|discriminate].
    destruct (processRepository time_Now fuel client repoName cfg w)
      as [[[repoSummary [e|]]| |] w1]; try discriminate.
    + apply IH in Hrun; try assumption.
      destruct Hrun as [Hlen [Hrp [Himg Hsp]]].
      cbn [length map fold_left]. unfold contributedImages at 2.
      unfold contributedSpace at 2. cbn [snd fst].
      unfold int_add at 2 4. rewrite !Z.add_0_r, !wrap64_small by assumption.
      repeat split; [now f_equal | assumption..].
    + apply IH in Hrun; try apply wrap64_in_range.
      destruct Hrun as [Hlen [Hrp [Himg Hsp]]].
      cbn [length map fold_left]. repeat split; [now f_equal | assumption..].
Qed.

(** The loop returns when every [processRepository] call does. *)
Lemma processRepositories_returns (repos : list Repository) :
  forall acc w,
    length (repositoryResults time_Now fuel client cfg repos w) = length repos ->
    exists summary w',
      processRepositories time_Now fuel client cfg repos acc w
      = (Done summary, w').
Proof.
  induction repos as [|repo rest IH]; intros acc w Hlen; [now eexists; eexists|].
  rewrite processRepositories_cons. cbn [repositoryResults] in Hlen.
  destruct (RepositoryName repo) as [repoName|]; [|discriminate].
  destruct (processRepository time_Now fuel client repoName cfg w)
    as [[[repoSummary [e|]]| |] w1]; try discriminate;
    apply IH; now injection Hlen.
Qed.

(** [CleanupWithClient] by the outcome of the repository-list fetch. *)
Lemma CleanupWithClient_cases (w : World St) :
  CleanupWithClient time_Now fuel cfg client w =
  match getRepositories fuel client w with
  | (Done (_, Some e), w1) =>
      (Done ({| RepositoriesProcessed := 0;
                ImagesDeleted := 0;
                SpaceFreed := 0 |}, Some e), w1)
  | (Done (repos, None), w1) =>
      match processRepositories time_Now fuel client cfg repos
              {| RepositoriesProcessed := Z.of_nat (length repos);
                 ImagesDeleted := 0;
                 SpaceFreed := 0 |} w1 with
      | (Done summary, w2) => (Done (summary, None), w2)
      | (Panic, w2) => (Panic, w2)
      | (OutOfFuel, w2) => (OutOfFuel, w2)
      end
  | (Panic, w1) => (Panic, w1)
  | (OutOfFuel, w1) => (OutOfFuel, w1)
  end.
Proof.
  unfold CleanupWithClient, bind.
  destruct (getRepositories fuel client w) as [[[repos [e|]]| |] w1];
    reflexivity.
Qed.

End Driver.

(** C5. [CleanupWithClient] returns the error of a failed repository-list
    fetch, with an all-zero summary.  Whenever it returns, its error is
    non-nil exactly when that fetch failed; and after a successful fetch
    every listed repository has been processed, [RepositoriesProcessed] is
    the length of the list, and the two sums are taken over the results of
    the repositories with a result carrying an error counted as zero.  It
    does return, without error, when the fetch succeeds and every
    [processRepository] call returns, with or without an error. *)
Theorem CleanupWithClient_error_handling
        (R : GoRuntime) (St : Type) (time_Now : St -> Time)
        (fuel : nat) (cfg : Config) (client : ECRClient St) (w : World St) :
  let run := CleanupWithClient time_Now fuel cfg client w in
  (forall repos e w1,
      getRepositories fuel client w = (Done (repos, Some e), w1) ->
      run = (Done ({| RepositoriesProcessed := 0;
                      ImagesDeleted := 0;
                      SpaceFreed := 0 |}, Some e), w1)) /\
  (forall summary err w',
      run = (Done (summary, err), w') ->
      (err <> None <->
       exists repos e w1,
         getRepositories fuel client w = (Done (repos, Some e), w1)) /\
      (forall repos w1,
          getRepositories fuel client w = (Done (repos, None), w1) ->
          let results :=
            repositoryResults time_Now fuel client cfg repos w1 in
          length results = length repos /\
          RepositoriesProcessed summary = Z.of_nat (length repos) /\
          ImagesDeleted summary = sumInt (map contributedImages results) /\
          SpaceFreed summary = sumInt (map contributedSpace results))) /\
  (forall repos w1,
      getRepositories fuel client w = (Done (repos, None), w1) ->
      length (repositoryResults time_Now fuel client cfg repos w1)
      = length repos ->
      exists summary w', run = (Done (summary, None), w')).
Proof.
  intros run. subst run. rewrite CleanupWithClient_cases.
  rewrite <- and_assoc. split.
  2:{ intros repos w1 Hfetch Hlen. rewrite Hfetch.
      destruct (processRepositories_returns time_Now client fuel cfg repos
                  {| RepositoriesProcessed := Z.of_nat (length repos);
                     ImagesDeleted := 0;
                     SpaceFreed := 0 |} w1 Hlen) as [summary [w' Hloop]].
      rewrite Hloop. now eexists; eexists. }
  destruct (getRepositories fuel client w) as [[[repos [e|]]| |] w1] eqn:Hfetch.
  - split.
    + intros repos' e' w1' H. now injection H as <- <- <-.
    + intros summary err w' Hrun. injection Hrun as <- <- <-. split.
      * split; [intros _; now eauto | discriminate].
      * intros repos' w1' H. discriminate H.
  - split; [intros repos' e' w1' H; discriminate H|].
    intros summary err w' Hrun.
    destruct (processRepositories time_Now fuel client cfg repos _ w1)
      as [[s| |] w2] eqn:Hloop; try discriminate.
    injection Hrun as <- <- <-. split.
    + split; [intros H; now exfalso|].
      intros [repos' [e' [w1' H]]]. discriminate H.
    + intros repos' w1' H. injection H as <- <-.
      apply processRepositories_aggregate in Hloop;
        [|unfold in_int64; simpl; lia..].
      destruct Hloop as [Hlen [Hrp [Himg Hsp]]].
      repeat split; assumption.
  - split; [intros repos' e' w1' H; discriminate H|].
    intros summary err w' Hrun. discriminate Hrun.
  - split; [intros repos' e' w1' H; discriminate H|].
    intros summary err w' Hrun. discriminate Hrun.
Qed.

Lemma CleanupWithClient_error_handling_witness :
  fst (CleanupWithClient (R := utcRuntime) testClock 1 (testConfig false 10 0)
         mockClient (startWorld emptyMock))
  = Done ({| RepositoriesProcessed := 0; ImagesDeleted := 0; SpaceFreed := 0 |},
          Some (ServerException "Test server error")) /\
  fst (CleanupWithClient (R := utcRuntime) testClock 1 (testConfig false 10 0)
         failingLaterClient (startWorld twoRepoMock))
  = Done ({| RepositoriesProcessed := 2;
             ImagesDeleted := 1;
             SpaceFreed := 1000000 |}, None) /\
  map contributedImages
      (repositoryResults (R := utcRuntime) testClock 1 failingLaterClient
         (testConfig false 10 0)
         [{| RepositoryName := Some "repo1"%string |};
          {| RepositoryName := Some "repo2"%string |}]
         (snd (getRepositories 1 failingLaterClient (startWorld twoRepoMock))))
  = [1; 0] /\
  sumInt (map contributedImages
            (repositoryResults (R := utcRuntime) testClock 1 failingLaterClient
               (testConfig false 10 0)
               [{| RepositoryName := Some "repo1"%string |};
                {| RepositoryName := Some "repo2"%string |}]
               (snd (getRepositories 1 failingLaterClient
                       (startWorld twoRepoMock)))))
  = 1.
Proof.
  split; [|split; [|split]].
  - rewrite (proj1 (CleanupWithClient_error_handling
                      utcRuntime testClock 1 (testConfig false 10 0)
                      mockClient (startWorld emptyMock))
                   [] (ServerException "Test server error")
                   (snd (getRepositories 1 mockClient (startWorld emptyMock)))
                   eq_refl).
    reflexivity.
  - vm_compute. reflexivity.
  - vm_compute. reflexivity.
  - destruct (proj1 (proj2 (CleanupWithClient_error_handling
                       utcRuntime testClock 1 (testConfig false 10 0)
                       failingLaterClient (startWorld twoRepoMock)))
                    {| RepositoriesProcessed := 2;
                       ImagesDeleted := 1;
                       SpaceFreed := 1000000 |} None
                    (snd (CleanupWithClient (R := utcRuntime) testClock 1
                            (testConfig false 10 0) failingLaterClient
                            (startWorld twoRepoMock)))
                    ltac:(vm_compute; reflexivity)) as [_ Hagg].
    destruct (Hagg [{| RepositoryName := Some "repo1"%string |};
                    {| RepositoryName := Some "repo2"%string |}]
                   (snd (getRepositories 1 failingLaterClient
                           (startWorld twoRepoMock)))
                   ltac:(vm_compute; reflexivity)) as [_ [_ [Himg _]]].
    symmetry. exact Himg.
Defined.



(** C7 at an image with neither tag nor digest: [getImageTag] panics on the
    nil digest, and so does a dry run that selects the image; the identifier
    built for the delete call is empty, and it is [getImageIdString] that
    would have labelled it "unknown". *)
Theorem getImageTag_nameless_image :
  getImageTag namelessImage = Panic /\
  fst (processRepository (R := utcRuntime) testClock 1 mockClient "test-repo"
         (testConfig true 10 0) (startWorld (repoMock [namelessImage])))
  = Panic /\
  imageIdentifier namelessImage
  = {| Id_ImageTag := None; Id_ImageDigest := None |} /\
  getImageIdString (Some (imageIdentifier namelessImage)) = "unknown"%string.
Proof. repeat split; vm_compute; reflexivity. Qed.

(** Where an image has a tag or a digest, the identifier of the report and
    of the delete call is the first tag, else the digest. *)
Lemma getImageTag_resolution (img : ImageDetail) :
  (forall tag tags, ImageTags img = tag :: tags ->
     getImageTag img = Done tag /\
     imageIdentifier img = {| Id_ImageTag := Some tag; Id_ImageDigest := None |}) /\
  (forall digest, ImageTags img = [] -> ImageDigest img = Some digest ->
     getImageTag img = Done digest /\
     imageIdentifier img
     = {| Id_ImageTag := None; Id_ImageDigest := Some digest |}).
Proof.
  unfold getImageTag, imageIdentifier. split.
  - intros tag tags ->. now split.
  - intros digest -> ->. now split.
Qed.

(** * Further properties *)

(** ** Pagination *)

Section Pagination.

Variable St : Type.
Variable client : ECRClient St.

Lemma getRepositoriesLoop_pages (pages : list DescribeRepositoriesOutput)
      (s s' : St) (token : option string) :
  repositoryPages client s token pages s' ->
  forall fuel repositories tr,
    (length pages <= fuel)%nat ->
    getRepositoriesLoop fuel client repositories token
      {| client_state := s; calls := tr |}
    = (Done (repositories ++ flat_map Repositories pages, None),
       {| client_state := s'; calls := tr ++ repositoryPageCalls token pages |}).
Proof.
  induction 1 as [s s' token page Hcall Hlast
                 |s s1 s' token next page pages Hcall Hnext Hrest IH];
    intros fuel repositories tr Hfuel;
    (destruct fuel as [|fuel]; [simpl in Hfuel; lia|]);
    cbn [getRepositoriesLoop]; unfold bind at 1, invoke; cbn [client_state calls];
    rewrite Hcall; unfold bind, deref, ret.
  - rewrite Hlast. cbn. now rewrite app_nil_r.
  - rewrite Hnext. rewrite IH by (simpl in Hfuel; lia).
    cbn [flat_map repositoryPageCalls]. rewrite Hnext.
    now rewrite <- !app_assoc.
Qed.

Lemma getImageDetailsLoop_page (repoName : string) (s s' : St)
      (token : option string) (page : ListImagesOutput)
      (details : list ImageDetail) (cs : list Call) :
  imagePage client repoName s token page details cs s' ->
  forall fuel images tr,
    getImageDetailsLoop (S fuel) client repoName images token
      {| client_state := s; calls := tr |}
    = match lio_NextToken page with
      | None => (Done (images ++ details, None),
                 {| client_state := s'; calls := tr ++ cs |})
      | Some next =>
          getImageDetailsLoop fuel client repoName (images ++ details)
            (Some next) {| client_state := s'; calls := tr ++ cs |}
      end.
Proof.
  intros [s0 s0' token0 page0 Hlist Hids
         |s0 s1 s0' token0 page0 desc Hlist Hids Hdesc] fuel images tr;
    cbn [getImageDetailsLoop]; unfold bind at 1, invoke; cbn [client_state calls];
    rewrite Hlist; unfold bind at 1, deref; unfold ret at 1; unfold bind at 1.
  - rewrite Hids. cbn [length Nat.ltb Nat.leb]. unfold ret at 1.
    rewrite app_nil_r. destruct (lio_NextToken page0); reflexivity.
  - destruct (ImageIds page0) as [|id ids] eqn:E; [now exfalso|].
    cbn [length Nat.ltb Nat.leb]. unfold bind at 1, invoke.
    cbn [client_state calls]. rewrite Hdesc.
    unfold bind at 1, deref. unfold ret at 1 2.
    rewrite <- app_assoc. cbn [app].
    destruct (lio_NextToken page0); reflexivity.
Qed.

Lemma getImageDetailsLoop_pages (repoName : string) (s s' : St)
      (token : option string) (details : list ImageDetail) (cs : list Call)
      (n : nat) :
  imagePages client repoName s token details cs s' n ->
  forall fuel images tr,
    (n <= fuel)%nat ->
    getImageDetailsLoop fuel client repoName images token
      {| client_state := s; calls := tr |}
    = (Done (images ++ details, None),
       {| client_state := s'; calls := tr ++ cs |}).
Proof.
  induction 1 as [s s' token page details cs Hpage Hlast
                 |s s1 s' token next page details rest cs cs' n
                    Hpage Hnext Hrest IH];
    intros fuel images tr Hfuel;
    (destruct fuel as [|fuel]; [lia|]);
    rewrite (getImageDetailsLoop_page Hpage).
  - now rewrite Hlast.
  - rewrite Hnext, IH by lia. now rewrite <- !app_assoc.
Qed.

End Pagination.

(** X1. When the registry serves the repositories in pages, each under the
    continuation token of the one before and the last without a token,
    [getRepositories] returns the repositories of all pages in order and no
    error, after exactly one [DescribeRepositories] call per page, the first
    without a token and each next one with the token just received. *)
Theorem getRepositories_pages
        (St : Type) (client : ECRClient St) (fuel : nat) (w : World St)
        (pages : list DescribeRepositoriesOutput) (s' : St) :
  repositoryPages client (client_state w) None pages s' ->
  (length pages <= fuel)%nat ->
  getRepositories fuel client w
  = (Done (flat_map Repositories pages, None),
     {| client_state := s';
        calls := calls w ++ repositoryPageCalls None pages |}).
Proof.
  intros Hpages Hfuel. unfold getRepositories. destruct w as [s tr].
  exact (getRepositoriesLoop_pages Hpages [] tr Hfuel).
Qed.

Lemma getRepositories_pages_witness :
  fst (getRepositories 2 mockClient (startWorld twoPageMock))
  = Done ([{| RepositoryName := Some "repo1"%string |};
           {| RepositoryName := Some "repo2"%string |}], None) /\
  calls (snd (getRepositories 2 mockClient (startWorld twoPageMock)))
  = [CallDescribeRepositories {| dri_NextToken := None |};
     CallDescribeRepositories {| dri_NextToken := Some "page2token"%string |}].
Proof.
  assert (Hpages :
            repositoryPages mockClient (client_state (startWorld twoPageMock))
              None [firstRepositoryPage; secondRepositoryPage]
              (client_state
                 (snd (getRepositories 2 mockClient (startWorld twoPageMock))))).
  { eapply repositoryPages_next; [reflexivity | reflexivity |].
    eapply repositoryPages_last; reflexivity. }
  rewrite (getRepositories_pages (fuel := 2) _ Hpages ltac:(simpl; lia)).
  split; reflexivity.
Defined.

(** X2. When the registry serves the images of a repository in pages,
    [getImageDetails] returns the details described for all pages in order
    and no error; per page it issues one [ListImages] call and, unless the
    page lists no identifier, one [DescribeImages] call for exactly the
    identifiers of that page. *)
Theorem getImageDetails_pages
        (St : Type) (client : ECRClient St) (repoName : string) (fuel : nat)
        (w : World St) (images : list ImageDetail) (cs : list Call)
        (s' : St) (n : nat) :
  imagePages client repoName (client_state w) None images cs s' n ->
  (n <= fuel)%nat ->
  getImageDetails fuel client repoName w
  = (Done (images, None), {| client_state := s'; calls := calls w ++ cs |}).
Proof.
  intros Hpages Hfuel. unfold getImageDetails. destruct w as [s tr].
  exact (getImageDetailsLoop_pages Hpages [] tr Hfuel).
Qed.

Lemma getImageDetails_pages_witness :
  fst (getImageDetails 1 mockClient "test-repo"
         (startWorld (repoMock [olderImage; newerImage])))
  = Done ([olderImage; newerImage], None) /\
  calls (snd (getImageDetails 1 mockClient "test-repo"
                (startWorld (repoMock [olderImage; newerImage]))))
  = [CallListImages {| lii_RepositoryName := "test-repo";
                       lii_NextToken := None |};
     CallDescribeImages
       {| dii_RepositoryName := "test-repo";
          dii_ImageIds := [{| Id_ImageTag := Some "v1"%string;
                              Id_ImageDigest := None |}] |}].
Proof.
  pose (page := {| ImageIds := [{| Id_ImageTag := Some "v1"%string;
                                   Id_ImageDigest := None |}];
                   lio_NextToken := None |}).
  pose (s0 := repoMock [olderImage; newerImage]).
  pose (s1 := noteListImages {| lii_RepositoryName := "test-repo";
                                lii_NextToken := None |} s0).
  pose (s2 := noteDescribeImages {| dii_RepositoryName := "test-repo";
                                    dii_ImageIds := ImageIds page |} s1).
  assert (Hpage : imagePage mockClient "test-repo" s0 None page
                    [olderImage; newerImage]
                    [CallListImages {| lii_RepositoryName := "test-repo";
                                       lii_NextToken := None |};
                     CallDescribeImages
                       {| dii_RepositoryName := "test-repo";
                          dii_ImageIds := ImageIds page |}] s2).
  { exact (@imagePage_described _ mockClient "test-repo" s0 s1 s2 None page
             {| ImageDetails := [olderImage; newerImage] |}
             eq_refl ltac:(discriminate) eq_refl). }
  pose proof (imagePages_last Hpage eq_refl) as Hpages.
  change (repoMock [olderImage; newerImage]) with s0.
  rewrite (getImageDetails_pages (fuel := 1) (startWorld s0) Hpages ltac:(lia)).
  split; reflexivity.
Defined.

(** ** Invariants of the world *)

Lemma invoke_eta (St In Out : Type) (method : Method St In Out)
      (event : In -> Call) (params : In) (w : World St) :
  invoke method event params w =
  (Done (fst (method params (client_state w))),
   snd (invoke method event params w)).
Proof.
  unfold invoke. destruct (method params (client_state w)) as [r s]. reflexivity.
Qed.

Lemma chunk_size (A : Type) (l : list A) (i : nat) :
  (i < length l)%nat ->
  (1 <= length (firstn batchSize (skipn i l)) <= 100)%nat.
Proof.
  intros Hi. rewrite length_firstn, length_skipn. unfold batchSize. lia.
Qed.

Section Invariant.

Context {R : GoRuntime}.
Variable St : Type.
Variable time_Now : St -> Time.
Variable client : ECRClient St.

(** A property of the world that each call the program can make keeps:
    any [DescribeRepositories] call and, for a repository that [okRepo]
    admits, any [ListImages] call, a [DescribeImages] call for at least one
    identifier, and, where [deleting] holds, a [BatchDeleteImage] call for
    between 1 and 100 identifiers. *)
Variable Inv : World St -> Prop.
Variable deleting : Prop.
Variable okRepo : string -> Prop.

Hypothesis Inv_DescribeRepositories : forall params w,
    Inv w ->
    Inv (snd (invoke (DescribeRepositories client) CallDescribeRepositories
                     params w)).

Hypothesis Inv_ListImages : forall params w,
    okRepo (lii_RepositoryName params) ->
    Inv w ->
    Inv (snd (invoke (ListImages client) CallListImages params w)).

Hypothesis Inv_DescribeImages : forall params w,
    okRepo (dii_RepositoryName params) ->
    dii_ImageIds params <> [] ->
    Inv w ->
    Inv (snd (invoke (DescribeImages client) CallDescribeImages params w)).

Hypothesis Inv_BatchDeleteImage : deleting -> forall params w,
    okRepo (bdi_RepositoryName params) ->
    (1 <= length (bdi_ImageIds params) <= 100)%nat ->
    Inv w ->
    Inv (snd (invoke (BatchDeleteImage client) CallBatchDeleteImage params w)).

Lemma getRepositoriesLoop_inv (fuel : nat) :
  forall repositories token w,
    Inv w ->
    Inv (snd (getRepositoriesLoop fuel client repositories token w)).
Proof.
  induction fuel as [|fuel IH]; intros repositories token w Hw; [exact Hw|].
  cbn [getRepositoriesLoop]. unfold bind at 1. rewrite invoke_eta.
  pose proof (Inv_DescribeRepositories {| dri_NextToken := token |} Hw) as H1.
  destruct (fst (DescribeRepositories client _ (client_state w)))
    as [resp [e|]]; [exact H1|].
  unfold bind, deref. destruct resp as [resp|]; [|exact H1].
  unfold ret at 1. destruct (dro_NextToken resp); [now apply IH | exact H1].
Qed.

Lemma getImageDetailsLoop_inv (repoName : string) (fuel : nat) :
  okRepo repoName ->
  forall images token w,
    Inv w ->
    Inv (snd (getImageDetailsLoop fuel client repoName images token w)).
Proof.
  intros Hrepo.
  induction fuel as [|fuel IH]; intros images token w Hw; [exact Hw|].
  cbn [getImageDetailsLoop]. unfold bind at 1. rewrite invoke_eta.
  pose proof (Inv_ListImages {| lii_RepositoryName := repoName;
                                lii_NextToken := token |} Hrepo Hw) as H1.
  destruct (fst (ListImages client _ (client_state w)))
    as [listResp [e|]]; [exact H1|].
  unfold bind at 1, deref. destruct listResp as [listResp|]; [|exact H1].
  unfold ret at 1. unfold bind at 1.
  destruct (0 <? length (ImageIds listResp))%nat eqn:Hids.
  - unfold bind at 1. rewrite invoke_eta.
    assert (Hne : ImageIds listResp <> []).
    { intros E. rewrite E in Hids. discriminate. }
    pose proof (Inv_DescribeImages
                  {| dii_RepositoryName := repoName;
                     dii_ImageIds := ImageIds listResp |} Hrepo Hne H1) as H2.
    destruct (fst (DescribeImages client _ _)) as [descResp [e|]]; [exact H2|].
    unfold bind at 1, deref. destruct descResp as [descResp|]; [|exact H2].
    unfold ret at 1 2.
    destruct (lio_NextToken listResp); [now apply IH | exact H2].
  - unfold ret at 1.
    destruct (lio_NextToken listResp); [now apply IH | exact H1].
Qed.

Lemma deleteImagesFrom_inv (repoName : string) (images : list ImageDetail)
      (n : nat) :
  okRepo repoName ->
  deleting ->
  forall i w,
    Inv w -> Inv (snd (deleteImagesFrom n client repoName images i w)).
Proof.
  intros Hrepo Hdel. induction n as [|n IH]; intros i w Hw.
  - cbn [deleteImagesFrom]. destruct (i <? length images)%nat; exact Hw.
  - cbn [deleteImagesFrom]. destruct (i <? length images)%nat eqn:Hi; [|exact Hw].
    apply Nat.ltb_lt in Hi. rewrite batch_identifiers.
    unfold bind at 1. rewrite invoke_eta.
    assert (H1 : Inv (snd (invoke (BatchDeleteImage client) CallBatchDeleteImage
                             {| bdi_RepositoryName := repoName;
                                bdi_ImageIds :=
                                  firstn batchSize
                                    (skipn i (map imageIdentifier images)) |}
                             w))).
    { apply (Inv_BatchDeleteImage Hdel); [exact Hrepo| |exact Hw].
      apply chunk_size. now rewrite length_map. }
    destruct (fst (BatchDeleteImage client _ (client_state w)))
      as [result [e|]]; [exact H1|].
    unfold bind at 1, deref. destruct result as [result|]; [|exact H1].
    unfold ret at 1. unfold bind at 1.
    match goal with
    | |- context [forEach _ ?fs ?w0] =>
        destruct (forEach_logFailure fs w0) as [Hlog|Hlog]; rewrite Hlog
    end; [now apply IH | exact H1].
Qed.

Lemma processRepository_inv (fuel : nat) (repoName : string) (cfg : Config)
      (w : World St) :
  okRepo repoName ->
  (DryRun cfg = false -> deleting) ->
  Inv w ->
  Inv (snd (processRepository time_Now fuel client repoName cfg w)).
Proof.
  intros Hrepo Hdel Hw.
  pose proof (getImageDetailsLoop_inv fuel Hrepo [] None Hw) as Hfetch.
  fold (getImageDetails fuel client repoName w) in Hfetch.
  rewrite processRepository_not_fetched.
  destruct (getImageDetails fuel client repoName w)
    as [[[images [e|]]| |] w1] eqn:Hrun; cbn [snd] in Hfetch; try exact Hfetch.
  rewrite (processRepository_fetched time_Now _ _ _ cfg _ Hrun). cbv zeta.
  destruct (length _ =? 0)%nat; [exact Hfetch|].
  destruct (DryRun cfg).
  - match goal with
    | |- context [forEach _ ?l ?w0] =>
        destruct (forEach_logDryRun l w0) as [_ [Hlog|Hlog]]; rewrite Hlog
    end; exact Hfetch.
  - unfold deleteImages.
    match goal with
    | |- context [deleteImagesFrom ?n _ _ ?l 0 w1] =>
        pose proof (deleteImagesFrom_inv l n Hrepo
                      (Hdel eq_refl) 0 Hfetch) as Hd;
        destruct (deleteImagesFrom n client repoName l 0 w1)
          as [[[e|]| |] w2]
    end; exact Hd.
Qed.

Lemma processRepositories_inv (fuel : nat) (cfg : Config)
      (repos : list Repository) :
  (forall name, In (Some name) (map RepositoryName repos) -> okRepo name) ->
  (DryRun cfg = false -> deleting) ->
  forall summary w,
    Inv w ->
    Inv (snd (processRepositories time_Now fuel client cfg repos summary w)).
Proof.
  intros Hrepos Hdel.
  induction repos as [|repo rest IH]; intros summary w Hw; [exact Hw|].
  rewrite processRepositories_cons.
  destruct (RepositoryName repo) as [repoName|] eqn:Hname; [|exact Hw].
  assert (Hrepo : okRepo repoName).
  { apply Hrepos. left. exact Hname. }
  assert (Hrest : forall name,
             In (Some name) (map RepositoryName rest) -> okRepo name).
  { intros name Hin. apply Hrepos. now right. }
  pose proof (processRepository_inv fuel cfg Hrepo Hdel Hw) as H1.
  destruct (processRepository time_Now fuel client repoName cfg w)
    as [[[repoSummary [e|]]| |] w1]; try exact H1; now apply IH.
Qed.

Lemma CleanupWithClient_inv (fuel : nat) (cfg : Config) (w : World St) :
  (forall name, okRepo name) ->
  (DryRun cfg = false -> deleting) ->
  Inv w ->
  Inv (snd (CleanupWithClient time_Now fuel cfg client w)).
Proof.
  intros Hrepos Hdel Hw. rewrite CleanupWithClient_cases.
  pose proof (getRepositoriesLoop_inv fuel [] None Hw) as H1.
  fold (getRepositories fuel client w) in H1.
  destruct (getRepositories fuel client w) as [[[repos [e|]]| |] w1];
    cbn [snd] in H1; try exact H1.
  match goal with
  | |- context [processRepositories _ _ _ _ _ ?acc w1] =>
      pose proof (processRepositories_inv fuel cfg repos
                    (fun name _ => Hrepos name) Hdel acc H1) as H2;
      destruct (processRepositories time_Now fuel client cfg repos acc w1)
        as [[s| |] w2]
  end; exact H2.
Qed.

End Invariant.

Lemma invoke_calls (St In Out : Type) (method : Method St In Out)
      (event : In -> Call) (params : In) (w : World St) :
  calls (snd (invoke method event params w)) = calls w ++ [event params].
Proof.
  unfold invoke. destruct (method params (client_state w)) as [r s]. reflexivity.
Qed.

(** X3. Every call [CleanupWithClient] issues, whatever the client answers
    and however the run ends, stays within the limits of the registry: no
    [DescribeImages] call without identifiers, and every [BatchDeleteImage]
    call with between 1 and 100 identifiers. *)
Theorem CleanupWithClient_within_limits
        (R : GoRuntime) (St : Type) (time_Now : St -> Time)
        (client : ECRClient St) (fuel : nat) (cfg : Config) (w : World St) :
  exists issued,
    calls (snd (CleanupWithClient time_Now fuel cfg client w))
    = calls w ++ issued /\
    Forall withinLimits issued.
Proof.
  apply (CleanupWithClient_inv time_Now client
           (fun w' => exists issued,
                calls w' = calls w ++ issued /\ Forall withinLimits issued)
           (deleting := True) (fun _ => True)).
  - intros params w' [issued [Hc Hall]]. rewrite invoke_calls, Hc.
    exists (issued ++ [CallDescribeRepositories params]).
    rewrite app_assoc. split; [reflexivity|].
    apply Forall_app. split; [exact Hall | constructor; [exact I | constructor]].
  - intros params w' _ [issued [Hc Hall]]. rewrite invoke_calls, Hc.
    exists (issued ++ [CallListImages params]).
    rewrite app_assoc. split; [reflexivity|].
    apply Forall_app. split; [exact Hall | constructor; [exact I | constructor]].
  - intros params w' _ Hids [issued [Hc Hall]]. rewrite invoke_calls, Hc.
    exists (issued ++ [CallDescribeImages params]).
    rewrite app_assoc. split; [reflexivity|].
    apply Forall_app. split; [exact Hall | constructor; [exact Hids | constructor]].
  - intros _ params w' _ Hids [issued [Hc Hall]]. rewrite invoke_calls, Hc.
    exists (issued ++ [CallBatchDeleteImage params]).
    rewrite app_assoc. split; [reflexivity|].
    apply Forall_app. split; [exact Hall | constructor; [exact Hids | constructor]].
  - intros _. exact I.
  - intros _. exact I.
  - exists []. now rewrite app_nil_r.
Qed.

(** X4. In dry-run mode a whole run of [CleanupWithClient] issues no
    batch-delete call, for any registry, any number of repositories and any
    way the run ends. *)
Theorem CleanupWithClient_dry_run_no_delete
        (R : GoRuntime) (St : Type) (time_Now : St -> Time)
        (client : ECRClient St) (fuel : nat) (cfg : Config) (w : World St) :
  DryRun cfg = true ->
  deleteBatches (calls (snd (CleanupWithClient time_Now fuel cfg client w)))
  = deleteBatches (calls w).
Proof.
  intros Hdry.
  assert (Hstep : forall tr c, isBatchDelete c = false ->
                    deleteBatches (tr ++ [c]) = deleteBatches tr).
  { intros tr c Hc. rewrite deleteBatches_app.
    destruct c; try discriminate; simpl; apply app_nil_r. }
  apply (CleanupWithClient_inv time_Now client
           (fun w' => deleteBatches (calls w') = deleteBatches (calls w))
           (deleting := False) (fun _ => True)).
  - intros params w' Hw'. rewrite invoke_calls, Hstep; [exact Hw' | reflexivity].
  - intros params w' _ Hw'. rewrite invoke_calls, Hstep; [exact Hw' | reflexivity].
  - intros params w' _ _ Hw'. rewrite invoke_calls, Hstep; [exact Hw' | reflexivity].
  - intros [].
  - intros _. exact I.
  - rewrite Hdry. discriminate.
  - reflexivity.
Qed.

Lemma CleanupWithClient_dry_run_no_delete_witness :
  fst (CleanupWithClient (R := utcRuntime) testClock 1 (testConfig true 10 0)
         mockClient
         (startWorld (registryMock ["repo1"%string; "repo2"%string]
                                   [olderImage; newerImage] None)))
  = Done ({| RepositoriesProcessed := 2;
             ImagesDeleted := 2;
             SpaceFreed := 2000000 |}, None) /\
  deleteBatches
    (calls (snd (CleanupWithClient (R := utcRuntime) testClock 1
                   (testConfig true 10 0) mockClient
                   (startWorld (registryMock ["repo1"%string; "repo2"%string]
                                             [olderImage; newerImage] None)))))
  = [].
Proof.
  split; [vm_compute; reflexivity|].
  exact (CleanupWithClient_dry_run_no_delete
           utcRuntime testClock mockClient 1 (testConfig true 10 0)
           (startWorld (registryMock ["repo1"%string; "repo2"%string]
                                     [olderImage; newerImage] None))
           eq_refl).
Defined.

(** ** The mock's counters *)

Lemma invoke_state (St In Out : Type) (method : Method St In Out)
      (event : In -> Call) (params : In) (w : World St) :
  client_state (snd (invoke method event params w))
  = snd (method params (client_state w)).
Proof.
  unfold invoke. destruct (method params (client_state w)) as [r s]. reflexivity.
Qed.

Lemma countCalls_snoc (kind : Call -> bool) (tr : list Call) (c : Call) :
  countCalls kind (tr ++ [c]) =
  if kind c then int_add (countCalls kind tr) 1 else countCalls kind tr.
Proof.
  unfold countCalls, int_add. rewrite filter_app. simpl.
  destruct (kind c).
  - rewrite wrap64_add_l, length_app. simpl. f_equal. lia.
  - now rewrite app_nil_r.
Qed.

Lemma mockDescribeRepositories_state (params : DescribeRepositoriesInput)
      (m : MockECRClient) :
  snd (mockDescribeRepositories params m) = noteDescribeRepositories params m.
Proof.
  unfold mockDescribeRepositories. cbv zeta.
  destruct (m_DescribeRepositoriesError _); [reflexivity|].
  destruct (m_DescribeRepositoriesOutput _); [|reflexivity].
  destruct (dri_NextToken params); [|reflexivity].
  destruct (m_NextDescribeRepositoriesOutput _); reflexivity.
Qed.

Lemma mockListImages_state (params : ListImagesInput) (m : MockECRClient) :
  snd (mockListImages params m) = noteListImages params m.
Proof.
  unfold mockListImages. cbv zeta. destruct (m_ListImagesError _); reflexivity.
Qed.

Lemma mockDescribeImages_state (params : DescribeImagesInput)
      (m : MockECRClient) :
  snd (mockDescribeImages params m) = noteDescribeImages params m.
Proof.
  unfold mockDescribeImages. cbv zeta.
  destruct (m_DescribeImagesError _); reflexivity.
Qed.

Lemma mockBatchDeleteImage_state (params : BatchDeleteImageInput)
      (m : MockECRClient) :
  snd (mockBatchDeleteImage params m) = noteBatchDeleteImage params m.
Proof.
  unfold mockBatchDeleteImage. cbv zeta.
  destruct (m_BatchDeleteImageError _); reflexivity.
Qed.

(** X5. Against the mock client of the test suite, the four call counters
    report the calls actually made: if they match the trace before a run of
    [CleanupWithClient], they match it after, however the run ends.  So a
    test that reads [BatchDeleteImageCalls] reads the number of batch-delete
    calls. *)
Theorem mockClient_counters
        (R : GoRuntime) (time_Now : MockECRClient -> Time)
        (fuel : nat) (cfg : Config) (w : World MockECRClient) :
  countersMatch (client_state w) (calls w) ->
  let w' := snd (CleanupWithClient time_Now fuel cfg mockClient w) in
  countersMatch (client_state w') (calls w').
Proof.
  intros Hw. cbv zeta.
  apply (CleanupWithClient_inv time_Now mockClient
           (fun w' => countersMatch (client_state w') (calls w'))
           (deleting := True) (fun _ => True));
    try exact Hw; try (intros _; exact I).
  - intros params w' [H1 [H2 [H3 H4]]].
    rewrite invoke_state, invoke_calls. cbn [DescribeRepositories mockClient].
    rewrite mockDescribeRepositories_state. unfold countersMatch.
    rewrite !countCalls_snoc. cbn. now rewrite H1, H2, H3, H4.
  - intros params w' _ [H1 [H2 [H3 H4]]].
    rewrite invoke_state, invoke_calls. cbn [ListImages mockClient].
    rewrite mockListImages_state. unfold countersMatch.
    rewrite !countCalls_snoc. cbn. now rewrite H1, H2, H3, H4.
  - intros params w' _ _ [H1 [H2 [H3 H4]]].
    rewrite invoke_state, invoke_calls. cbn [DescribeImages mockClient].
    rewrite mockDescribeImages_state. unfold countersMatch.
    rewrite !countCalls_snoc. cbn. now rewrite H1, H2, H3, H4.
  - intros _ params w' _ _ [H1 [H2 [H3 H4]]].
    rewrite invoke_state, invoke_calls. cbn [BatchDeleteImage mockClient].
    rewrite mockBatchDeleteImage_state. unfold countersMatch.
    rewrite !countCalls_snoc. cbn. now rewrite H1, H2, H3, H4.
Qed.

Lemma mockClient_counters_witness :
  m_BatchDeleteImageCalls
    (client_state
       (snd (CleanupWithClient (R := utcRuntime) testClock 1
               (testConfig false 10 0) mockClient
               (startWorld (registryMock ["repo1"%string; "repo2"%string]
                                         [olderImage; newerImage] None)))))
  = countCalls isBatchDelete
      (calls
         (snd (CleanupWithClient (R := utcRuntime) testClock 1
                 (testConfig false 10 0) mockClient
                 (startWorld (registryMock ["repo1"%string; "repo2"%string]
                                           [olderImage; newerImage] None))))) /\
  countCalls isBatchDelete
    (calls
       (snd (CleanupWithClient (R := utcRuntime) testClock 1
               (testConfig false 10 0) mockClient
               (startWorld (registryMock ["repo1"%string; "repo2"%string]
                                         [olderImage; newerImage] None)))))
  = 2.
Proof.
  split; [|vm_compute; reflexivity].
  apply (mockClient_counters utcRuntime testClock 1 (testConfig false 10 0)
           (startWorld (registryMock ["repo1"%string; "repo2"%string]
                                     [olderImage; newerImage] None))).
  repeat split; reflexivity.
Defined.

(** ** Pagination without end *)

(** X6. [getImageDetails] has no bound on the number of pages: against a
    registry that answers every [ListImages] call with a continuation token
    (and every [DescribeImages] call without error), it is still running
    after any number of pages, having asked for a page at every step. *)
Theorem getImageDetails_unbounded
        (St : Type) (client : ECRClient St) (repoName : string)
        (Inv : St -> Prop) :
  (forall params s, Inv s ->
     exists page next s',
       ListImages client params s = ((Some page, None), s') /\
       lio_NextToken page = Some next /\ Inv s') ->
  (forall params s, Inv s ->
     exists desc s',
       DescribeImages client params s = ((Some desc, None), s') /\ Inv s') ->
  forall fuel w,
    Inv (client_state w) ->
    fst (getImageDetails fuel client repoName w) = OutOfFuel /\
    length (filter isListImages
              (calls (snd (getImageDetails fuel client repoName w))))
    = (length (filter isListImages (calls w)) + fuel)%nat.
Proof.
  intros Hlist Hdesc fuel w Hw. unfold getImageDetails.
  destruct (getImageDetailsLoop fuel client repoName [] None w) as [o w']
    eqn:Hrun. cbn [fst snd].
  revert Hw Hrun. generalize (@nil ImageDetail). generalize (@None string).
  revert w.
  induction fuel as [|fuel IH]; intros w token images Hw Hrun.
  - injection Hrun as <- <-. split; [reflexivity | lia].
  - cbn [getImageDetailsLoop] in Hrun. unfold bind at 1, invoke in Hrun.
    destruct (Hlist {| lii_RepositoryName := repoName;
                       lii_NextToken := token |} _ Hw)
      as [page [next [s1 [Hcall [Hnext Hs1]]]]].
    rewrite Hcall in Hrun. unfold bind at 1, deref in Hrun.
    unfold ret at 1 in Hrun. unfold bind at 1 in Hrun.
    destruct (0 <? length (ImageIds page))%nat.
    + unfold bind at 1, invoke in Hrun. cbn [client_state calls] in Hrun.
      destruct (Hdesc {| dii_RepositoryName := repoName;
                         dii_ImageIds := ImageIds page |} _ Hs1)
        as [desc [s2 [Hcall2 Hs2]]].
      rewrite Hcall2 in Hrun. unfold bind at 1, deref in Hrun.
      unfold ret at 1 2 in Hrun. rewrite Hnext in Hrun.
      apply IH in Hrun; [|exact Hs2]. destruct Hrun as [Hout Hcount].
      split; [exact Hout|]. rewrite Hcount. cbn [calls].
      rewrite !filter_app, !length_app. simpl. lia.
    + unfold ret at 1 in Hrun. rewrite Hnext in Hrun.
      apply IH in Hrun; [|exact Hs1]. destruct Hrun as [Hout Hcount].
      split; [exact Hout|]. rewrite Hcount. cbn [calls].
      rewrite !filter_app, !length_app. simpl. lia.
Qed.

Lemma getImageDetails_unbounded_witness :
  fst (getImageDetails 50 mockClient "test-repo"
         (startWorld (emptyPageMock (Some "page-2"%string)))) = OutOfFuel /\
  length (filter isListImages
            (calls (snd (getImageDetails 50 mockClient "test-repo"
                           (startWorld (emptyPageMock (Some "page-2"%string)))))))
  = 50%nat.
Proof.
  apply (getImageDetails_unbounded mockClient "test-repo"
           (fun m => m_ListImagesError m = None /\
                     m_ListImagesOutput m
                     = Some {| ImageIds := [];
                               lio_NextToken := Some "page-2"%string |} /\
                     m_DescribeImagesError m = None /\
                     m_DescribeImagesOutput m = Some {| ImageDetails := [] |})).
  - intros params m [H1 [H2 [H3 H4]]].
    exists {| ImageIds := []; lio_NextToken := Some "page-2"%string |}.
    exists "page-2"%string. exists (noteListImages params m).
    cbn [ListImages mockClient]. unfold mockListImages. cbn. rewrite H1, H2.
    repeat split; assumption.
  - intros params m [H1 [H2 [H3 H4]]].
    exists {| ImageDetails := [] |}. exists (noteDescribeImages params m).
    cbn [DescribeImages mockClient]. unfold mockDescribeImages. cbn.
    rewrite H3, H4. repeat split; assumption.
  - repeat split; reflexivity.
Defined.

(** X7. [getRepositories] has no bound on the number of pages either:
    against a registry that answers every [DescribeRepositories] call with a
    continuation token it is still running after any number of pages, one
    call per page. *)
Theorem getRepositories_unbounded
        (St : Type) (client : ECRClient St) (Inv : St -> Prop) :
  (forall params s, Inv s ->
     exists page next s',
       DescribeRepositories client params s = ((Some page, None), s') /\
       dro_NextToken page = Some next /\ Inv s') ->
  forall fuel w,
    Inv (client_state w) ->
    fst (getRepositories fuel client w) = OutOfFuel /\
    length (calls (snd (getRepositories fuel client w)))
    = (length (calls w) + fuel)%nat.
Proof.
  intros Hpage fuel w Hw. unfold getRepositories.
  destruct (getRepositoriesLoop fuel client [] None w) as [o w'] eqn:Hrun.
  cbn [fst snd]. revert Hw Hrun.
  generalize (@nil Repository). generalize (@None string). revert w.
  induction fuel as [|fuel IH]; intros w token repositories Hw Hrun.
  - injection Hrun as <- <-. split; [reflexivity | lia].
  - cbn [getRepositoriesLoop] in Hrun. unfold bind at 1, invoke in Hrun.
    destruct (Hpage {| dri_NextToken := token |} _ Hw)
      as [page [next [s1 [Hcall [Hnext Hs1]]]]].
    rewrite Hcall in Hrun. unfold bind at 1, deref in Hrun.
    unfold ret at 1 in Hrun. rewrite Hnext in Hrun.
    apply IH in Hrun; [|exact Hs1]. destruct Hrun as [Hout Hcount].
    split; [exact Hout|]. rewrite Hcount. cbn [calls].
    rewrite length_app. simpl. lia.
Qed.

Lemma getRepositories_unbounded_witness :
  fst (getRepositories 50 mockClient (startWorld repeatingPageMock))
  = OutOfFuel /\
  length (calls (snd (getRepositories 50 mockClient
                        (startWorld repeatingPageMock)))) = 50%nat.
Proof.
  apply (getRepositories_unbounded mockClient
           (fun m => m_DescribeRepositoriesError m = None /\
                     m_DescribeRepositoriesOutput m = Some firstRepositoryPage /\
                     m_NextDescribeRepositoriesOutput m = None)).
  - intros params m [H1 [H2 H3]].
    exists firstRepositoryPage. exists "page2token"%string.
    exists (noteDescribeRepositories params m).
    cbn [DescribeRepositories mockClient]. unfold mockDescribeRepositories.
    cbn. rewrite H1, H2, H3.
    destruct (dri_NextToken params); repeat split; assumption.
  - repeat split; reflexivity.
Defined.

(** ** More on the Image Selector *)

Section Selector.

Context {R : GoRuntime}.
Hypothesis R_ok : GoRuntimeOk R.

Lemma sortImagesByPushedTime_perm (images : list ImageDetail) :
  Permutation images (sortImagesByPushedTime images).
Proof. apply (sort_Slice_perm R_ok). Qed.

Lemma sortImagesByPushedTime_sorted (images : list ImageDetail) :
  StronglySorted (fun a b => pushedLess b a = false)
                 (sortImagesByPushedTime images).
Proof. apply (sort_Slice_sorted R_ok pushedLess_swo). Qed.

Lemma sortImagesByPushedTime_length (images : list ImageDetail) :
  length (sortImagesByPushedTime images) = length images.
Proof. symmetry. apply Permutation_length, sortImagesByPushedTime_perm. Qed.

End Selector.

Lemma keepCount_bounds (cfg : Config) (n : nat) :
  0 <= keepCount cfg n <= Z.of_nat n.
Proof.
  rewrite keepCount_min. destruct (0 <? MaxImages cfg) eqn:E; lia.
Qed.

(** X8. Keep-count exemption.  When every image of the repository has a
    known push time before the cutoff, the deletion set has
    [len - keepCount] images: with [MaxImages = K] between 0 and the number
    [M] of images, exactly [M - K]. *)
Theorem selectImagesForDeletion_keep_count
        (R : GoRuntime) (R_ok : GoRuntimeOk R)
        (images : list ImageDetail) (cfg : Config) (t0 : Time) :
  (forall img, In img images ->
     exists t, ImagePushedAt img = Some t /\ t < cutoffTime cfg t0) ->
  Z.of_nat (length (selectImagesForDeletion images cfg t0))
  = Z.of_nat (length images) - keepCount cfg (length images) /\
  (0 <= MaxImages cfg <= Z.of_nat (length images) ->
   Z.of_nat (length (selectImagesForDeletion images cfg t0))
   = Z.of_nat (length images) - MaxImages cfg).
Proof.
  intros Hold.
  assert (Hlen : Z.of_nat (length (selectImagesForDeletion images cfg t0))
                 = Z.of_nat (length images) - keepCount cfg (length images)).
  { rewrite selectImagesForDeletion_filter.
    rewrite (sortImagesByPushedTime_length R_ok).
    pose proof (keepCount_bounds cfg (length images)) as Hk.
    rewrite forallb_filter_id.
    - rewrite length_skipn, (sortImagesByPushedTime_length R_ok). lia.
    - apply forallb_forall. intros img Hin.
      apply In_skipn_rank in Hin. destruct Hin as [rank [Hr _]].
      apply nth_error_In in Hr.
      apply (Permutation_in _ (Permutation_sym
                                 (sortImagesByPushedTime_perm R_ok images)))
        in Hr.
      destruct (Hold img Hr) as [t [Ht Hlt]].
      unfold eligible, Before. rewrite Ht. lia. }
  split; [exact Hlen|].
  intros HK. rewrite Hlen, keepCount_min.
  destruct (0 <? MaxImages cfg) eqn:E; lia.
Qed.

Lemma selectImagesForDeletion_keep_count_witness :
  Z.of_nat (length (selectImagesForDeletion (R := utcRuntime)
                      testImages (testConfig false 1 3) testNow)) = 4 - 3.
Proof.
  apply (selectImagesForDeletion_keep_count utcRuntime_ok testImages
           (testConfig false 1 3) testNow).
  - intros img Hin. simpl in Hin.
    destruct Hin as [<-|[<-|[<-|[<-|[]]]]]; eexists; split;
      try reflexivity; vm_compute; reflexivity.
  - simpl. lia.
Defined.

(** X9. The images exempted by rank are the newest: an image in the
    deletion set was pushed no later than any image with a known push time
    among the first [keepCount] of the sorted slice; and if one of those
    first [keepCount] images has no push time, nothing is deleted. *)
Theorem selectImagesForDeletion_keeps_newest
        (R : GoRuntime) (R_ok : GoRuntimeOk R)
        (images : list ImageDetail) (cfg : Config) (t0 : Time)
        (rank : nat) (kept : ImageDetail) :
  Z.of_nat rank < keepCount cfg (length images) ->
  nth_error (sortImagesByPushedTime images) rank = Some kept ->
  (forall tk sel ts,
      ImagePushedAt kept = Some tk ->
      In sel (selectImagesForDeletion images cfg t0) ->
      ImagePushedAt sel = Some ts ->
      ts <= tk) /\
  (ImagePushedAt kept = None -> selectImagesForDeletion images cfg t0 = []).
Proof.
  intros Hrank Hkept.
  assert (Hlater : forall sel,
             In sel (selectImagesForDeletion images cfg t0) ->
             pushedLess sel kept = false /\ ImagePushedAt sel <> None).
  { intros sel Hsel. rewrite selectImagesForDeletion_filter in Hsel.
    rewrite (sortImagesByPushedTime_length R_ok) in Hsel.
    apply filter_In in Hsel. destruct Hsel as [Hin Hel].
    apply In_skipn_rank in Hin. destruct Hin as [rank' [Hr Hk]]. split.
    - apply (StronglySorted_nth_error
               (sortImagesByPushedTime_sorted R_ok images)
               (i := rank) (j := rank')); [lia | exact Hkept | exact Hr].
    - unfold eligible in Hel. destruct (ImagePushedAt sel); discriminate. }
  split.
  - intros tk sel ts Hk Hsel Hs. destruct (Hlater sel Hsel) as [Hless _].
    unfold pushedLess, After in Hless. rewrite Hs, Hk in Hless. lia.
  - intros Hnil.
    destruct (selectImagesForDeletion images cfg t0) as [|sel rest] eqn:E;
      [reflexivity|].
    destruct (Hlater sel (or_introl eq_refl)) as [Hless Hknown].
    unfold pushedLess in Hless. rewrite Hnil in Hless.
    destruct (ImagePushedAt sel); [discriminate | now exfalso].
Qed.

Lemma selectImagesForDeletion_keeps_newest_witness :
  nth_error (sortImagesByPushedTime (R := utcRuntime) testImages) 1
  = Some image8 /\
  In image12 (selectImagesForDeletion (R := utcRuntime) testImages
                (testConfig false 5 2) testNow) /\
  daysAgo 12 <= daysAgo 8.
Proof.
  split; [reflexivity|]. split; [vm_compute; auto|].
  exact (proj1 (selectImagesForDeletion_keeps_newest
                  utcRuntime_ok testImages (testConfig false 5 2) testNow
                  1%nat (kept := image8)
                  ltac:(vm_compute; reflexivity) eq_refl)
               (daysAgo 8) image12 (daysAgo 12) eq_refl
               ltac:(vm_compute; auto) eq_refl).
Defined.

Lemma StronglySorted_map (A B : Type) (RA : A -> A -> Prop)
      (RB : B -> B -> Prop) (f : A -> B) (l : list A) :
  (forall a b, RA a b -> RB (f a) (f b)) ->
  StronglySorted RA l -> StronglySorted RB (map f l).
Proof.
  intros Hf. induction 1 as [|a l Hl IH Ha]; simpl; constructor; [exact IH|].
  apply Forall_map. eapply Forall_impl; [|exact Ha]. intros b. apply Hf.
Qed.

(** Two arrangements of the same push times, both newest first with the
    unknown ones last, are the same list. *)
Lemma sorted_times_unique (k1 : list (option Time)) :
  forall k2,
    Permutation k1 k2 ->
    StronglySorted (fun a b => pushedAtLess b a = false) k1 ->
    StronglySorted (fun a b => pushedAtLess b a = false) k2 ->
    k1 = k2.
Proof.
  induction k1 as [|x k1 IH]; intros k2 Hperm H1 H2.
  - apply Permutation_nil in Hperm. now subst.
  - destruct k2 as [|y k2].
    { symmetry in Hperm. apply Permutation_nil in Hperm. discriminate. }
    inversion H1 as [|? ? H1' Hx]; subst. inversion H2 as [|? ? H2' Hy]; subst.
    rewrite Forall_forall in Hx, Hy.
    assert (Hirr : forall k, pushedAtLess k k = false).
    { intros [t|]; simpl; [unfold After; lia | reflexivity]. }
    assert (Hxy : pushedAtLess x y = false).
    { assert (Hin : In x (y :: k2))
        by (eapply Permutation_in; [exact Hperm | now left]).
      destruct Hin as [->|Hin]; [apply Hirr | now apply Hy]. }
    assert (Hyx : pushedAtLess y x = false).
    { assert (Hin : In y (x :: k1))
        by (eapply Permutation_in; [symmetry; exact Hperm | now left]).
      destruct Hin as [->|Hin]; [apply Hirr | now apply Hx]. }
    assert (x = y) as ->.
    { destruct x as [tx|], y as [ty|]; simpl in Hxy, Hyx;
        try discriminate; [|reflexivity].
      unfold After in *. f_equal. lia. }
    f_equal. apply IH; [|assumption..].
    eapply Permutation_cons_inv. exact Hperm.
Qed.

Lemma map_filter_eligible (cutoff : Time) (l : list ImageDetail) :
  map ImagePushedAt (filter (eligible cutoff) l)
  = filter (eligibleAt cutoff) (map ImagePushedAt l).
Proof.
  induction l as [|img l IH]; simpl; [reflexivity|].
  change (eligible cutoff img) with (eligibleAt cutoff (ImagePushedAt img)).
  destruct (eligibleAt cutoff (ImagePushedAt img)); simpl; now rewrite IH.
Qed.

(** X10. The push times of the deletion set, in order, depend neither on the
    order in which the registry lists the images nor on how the unstable
    sort breaks ties.  In particular a second selection over the slice that
    the first one sorted in place selects images of the same push times. *)
Theorem selectImagesForDeletion_order_independent
        (R : GoRuntime) (R_ok : GoRuntimeOk R)
        (images1 images2 : list ImageDetail) (cfg : Config) (t0 : Time) :
  Permutation images1 images2 ->
  map ImagePushedAt (selectImagesForDeletion images1 cfg t0)
  = map ImagePushedAt (selectImagesForDeletion images2 cfg t0) /\
  map ImagePushedAt
      (selectImagesForDeletion (sortImagesByPushedTime images1) cfg t0)
  = map ImagePushedAt (selectImagesForDeletion images1 cfg t0).
Proof.
  assert (Hgen : forall l1 l2, Permutation l1 l2 ->
             map ImagePushedAt (selectImagesForDeletion l1 cfg t0)
             = map ImagePushedAt (selectImagesForDeletion l2 cfg t0)).
  { intros l1 l2 Hperm. rewrite !selectImagesForDeletion_filter.
    rewrite !(sortImagesByPushedTime_length R_ok).
    rewrite (Permutation_length Hperm).
    rewrite !map_filter_eligible, <- !skipn_map. f_equal. f_equal.
    apply sorted_times_unique.
    - apply Permutation_map.
      rewrite <- (sortImagesByPushedTime_perm R_ok l1).
      rewrite <- (sortImagesByPushedTime_perm R_ok l2). exact Hperm.
    - eapply StronglySorted_map;
        [|apply (sortImagesByPushedTime_sorted R_ok)].
      intros a b Hab. exact Hab.
    - eapply StronglySorted_map;
        [|apply (sortImagesByPushedTime_sorted R_ok)].
      intros a b Hab. exact Hab. }
  intros Hperm. split; [now apply Hgen|].
  apply Hgen. symmetry. apply (sortImagesByPushedTime_perm R_ok).
Qed.

Lemma selectImagesForDeletion_order_independent_witness :
  map ImagePushedAt
      (selectImagesForDeletion (R := utcRuntime)
         [image15; image2; image12; image8] (testConfig false 5 2) testNow)
  = [Some (daysAgo 12); Some (daysAgo 15)].
Proof.
  assert (Hperm : Permutation [image15; image2; image12; image8] testImages).
  { apply (perm_trans (l' := [image2; image15; image12; image8]));
      [apply perm_swap|].
    apply perm_skip. exact (Permutation_rev [image15; image12; image8]). }
  rewrite (proj1 (selectImagesForDeletion_order_independent
                    utcRuntime_ok (testConfig false 5 2) testNow Hperm)).
  reflexivity.
Defined.

(** What it takes for an image to be selected. *)
Lemma selectImagesForDeletion_selected
      (R : GoRuntime) (R_ok : GoRuntimeOk R)
      (images : list ImageDetail) (cfg : Config) (t0 : Time)
      (img : ImageDetail) :
  In img (selectImagesForDeletion images cfg t0) ->
  exists t rank,
    In img images /\
    ImagePushedAt img = Some t /\ t < cutoffTime cfg t0 /\
    nth_error (sortImagesByPushedTime images) rank = Some img /\
    keepCount cfg (length images) <= Z.of_nat rank.
Proof.
  intros Hin. rewrite selectImagesForDeletion_filter in Hin.
  rewrite (sortImagesByPushedTime_length R_ok) in Hin.
  apply filter_In in Hin. destruct Hin as [Hin Hel].
  apply In_skipn_rank in Hin. destruct Hin as [rank [Hr Hk]].
  unfold eligible, Before in Hel.
  destruct (ImagePushedAt img) as [t|] eqn:Ht; [|discriminate].
  exists t, rank. repeat split; try assumption; try lia.
  apply (Permutation_in _ (Permutation_sym
                             (sortImagesByPushedTime_perm R_ok images))).
  eapply nth_error_In. exact Hr.
Qed.

(** ** More on the Repository Processor *)

(** X11. Deletion safety.  Once the images of a repository are fetched, the
    only calls [processRepository] issues are batch-delete calls for that
    repository, and every identifier in them is the identifier of a fetched
    image whose push time is known and strictly before the cutoff and which
    stands at a rank at or beyond [keepCount] in the sorted slice. *)
Theorem processRepository_deletes_only_selected
        (R : GoRuntime) (R_ok : GoRuntimeOk R)
        (St : Type) (time_Now : St -> Time) (client : ECRClient St)
        (fuel : nat) (repoName : string) (cfg : Config) (w w1 : World St)
        (images : list ImageDetail) :
  getImageDetails fuel client repoName w = (Done (images, None), w1) ->
  exists batches,
    calls (snd (processRepository time_Now fuel client repoName cfg w))
    = calls w1 ++ map (batchDeleteCall repoName) batches /\
    forall ids id,
      In ids batches -> In id ids ->
      exists img t rank,
        In img images /\ id = imageIdentifier img /\
        ImagePushedAt img = Some t /\
        t < cutoffTime cfg (time_Now (client_state w1)) /\
        nth_error (sortImagesByPushedTime images) rank = Some img /\
        keepCount cfg (length images) <= Z.of_nat rank.
Proof.
  intros Hfetch.
  rewrite (processRepository_fetched time_Now _ _ _ cfg _ Hfetch). cbv zeta.
  set (toDelete := selectImagesForDeletion images cfg
                     (time_Now (client_state w1))).
  assert (Hnone : exists batches,
             calls w1 = calls w1 ++ map (batchDeleteCall repoName) batches /\
             forall ids id, In ids batches -> In id ids ->
               exists img t rank,
                 In img images /\ id = imageIdentifier img /\
                 ImagePushedAt img = Some t /\
                 t < cutoffTime cfg (time_Now (client_state w1)) /\
                 nth_error (sortImagesByPushedTime images) rank = Some img /\
                 keepCount cfg (length images) <= Z.of_nat rank).
  { exists []. split; [now rewrite app_nil_r | intros ids id []]. }
  destruct (length toDelete =? 0)%nat; [exact Hnone|].
  destruct (DryRun cfg).
  - destruct (forEach_logDryRun toDelete w1) as [_ [Hlog|Hlog]];
      rewrite Hlog; exact Hnone.
  - destruct (deleteImages client repoName toDelete w1) as [o w2] eqn:Hdel.
    unfold deleteImages in Hdel.
    apply deleteImagesFrom_trace in Hdel; [|lia].
    destruct Hdel as [k [_ [Hcalls _]]]. cbn [skipn] in Hcalls.
    exists (firstn k (chunksFuel (length toDelete) batchSize
                        (map imageIdentifier toDelete))).
    split.
    { destruct o as [[e|]| |]; exact Hcalls. }
    intros ids id Hids Hid.
    assert (Hin : In id (map imageIdentifier toDelete)).
    { rewrite <- (@chunksFuel_concat _ batchSize ltac:(unfold batchSize; lia)
                    (length toDelete) (map imageIdentifier toDelete))
        by (rewrite length_map; lia).
      apply in_concat. exists ids. split; [|exact Hid].
      rewrite <- (firstn_skipn k). apply in_or_app. now left. }
    apply in_map_iff in Hin. destruct Hin as [img [Hid' Himg]].
    destruct (selectImagesForDeletion_selected R_ok _ _ _ _ Himg)
      as [t [rank [H1 [H2 [H3 [H4 H5]]]]]].
    exists img, t, rank. repeat split; try assumption. now symmetry.
Qed.

Lemma processRepository_deletes_only_selected_witness :
  deleteBatches
    (calls (snd (processRepository (R := utcRuntime) testClock 1 mockClient
                   "test-repo" (testConfig false 10 0)
                   (startWorld (repoMock [olderImage; newerImage])))))
  = [[imageIdentifier olderImage]].
Proof.
  destruct (processRepository_deletes_only_selected
              utcRuntime_ok testClock mockClient 1 "test-repo"
              (testConfig false 10 0)
              (startWorld (repoMock [olderImage; newerImage]))
              (w1 := snd (getImageDetails 1 mockClient "test-repo"
                            (startWorld (repoMock [olderImage; newerImage]))))
              (images := [olderImage; newerImage])
              ltac:(vm_compute; reflexivity)) as [batches [Hcalls _]].
  vm_compute. reflexivity.
Defined.

Section DeleteOutcome.

Variable St : Type.
Variable client : ECRClient St.
Variable repoName : string.
Variable images : list ImageDetail.

(** An error of [deleteImages] is a transport error, wrapped. *)
Lemma deleteImagesFrom_error (n : nat) :
  forall i w err w',
    deleteImagesFrom n client repoName images i w = (Done (Some err), w') ->
    exists e, err = Errorf "failed to delete batch of images" e.
Proof.
  induction n as [|n IH]; intros i w err w' Hrun;
    cbn [deleteImagesFrom] in Hrun;
    destruct (i <? length images)%nat; try discriminate.
  unfold bind at 1 in Hrun. rewrite invoke_eta in Hrun.
  destruct (fst (BatchDeleteImage client _ (client_state w)))
    as [result [e|]].
  { injection Hrun as <- _. now exists e. }
  unfold bind at 1, deref in Hrun. destruct result as [result|];
    [|discriminate].
  unfold ret at 1 in Hrun. unfold bind at 1 in Hrun.
  match type of Hrun with
  | context [forEach _ ?fs ?w0] =>
      destruct (forEach_logFailure fs w0) as [Hlog|Hlog]; rewrite Hlog in Hrun
  end; [|discriminate].
  now apply IH in Hrun.
Qed.

Lemma forEach_logFailure_ok (failures : list ImageFailure) (w : World St) :
  Forall (fun f => FailureReason f <> None) failures ->
  forEach (@logFailure St) failures w = (Done tt, w).
Proof.
  induction 1 as [|f failures Hf _ IH]; [reflexivity|].
  cbn [forEach]. unfold bind at 1, logFailure, deref.
  destruct (FailureReason f); [|now exfalso].
  unfold bind at 1, ret. exact IH.
Qed.

(** Against a registry that serves every batch-delete call, the loop runs to
    its end. *)
Lemma deleteImagesFrom_served (Inv : St -> Prop) :
  (forall params s, Inv s ->
     exists out s',
       BatchDeleteImage client params s = ((Some out, None), s') /\
       Forall (fun f => FailureReason f <> None) (Failures out) /\
       Inv s') ->
  forall n i w,
    (length images - i <= n)%nat ->
    Inv (client_state w) ->
    fst (deleteImagesFrom n client repoName images i w) = Done None.
Proof.
  intros Hserved. induction n as [|n IH]; intros i w Hn Hw;
    cbn [deleteImagesFrom];
    destruct (i <? length images)%nat eqn:Hi; try reflexivity.
  - apply Nat.ltb_lt in Hi. lia.
  - apply Nat.ltb_lt in Hi. unfold bind at 1, invoke.
    match goal with
    | |- context [BatchDeleteImage client ?p (client_state w)] =>
        destruct (Hserved p _ Hw) as [out [s1 [Hcall [Hreasons Hs1]]]]
    end.
    rewrite Hcall. unfold bind at 1, deref. unfold ret at 1. unfold bind at 1.
    rewrite (forEach_logFailure_ok _ Hreasons).
    apply IH; [unfold batchSize; lia | exact Hs1].
Qed.

End DeleteOutcome.

(** X12. Per-item failures are not fatal.  Against a registry that answers
    every batch-delete call without a transport error, whatever images its
    answers report as failed (each with a reason), [deleteImages] returns a
    nil error after sending every chunk of the identifier list. *)
Theorem deleteImages_item_failures_not_fatal
        (St : Type) (client : ECRClient St) (repoName : string)
        (images : list ImageDetail) (Inv : St -> Prop) (w : World St) :
  (forall params s, Inv s ->
     exists out s',
       BatchDeleteImage client params s = ((Some out, None), s') /\
       Forall (fun f => FailureReason f <> None) (Failures out) /\
       Inv s') ->
  Inv (client_state w) ->
  fst (deleteImages client repoName images w) = Done None /\
  calls (snd (deleteImages client repoName images w))
  = calls w ++ map (batchDeleteCall repoName)
                   (chunks 100 (map imageIdentifier images)).
Proof.
  intros Hserved Hw.
  pose proof (@deleteImagesFrom_served St client repoName images Inv Hserved
                (length images) 0%nat w ltac:(lia) Hw) as Hdone.
  fold (deleteImages client repoName images w) in Hdone.
  split; [exact Hdone|].
  destruct (deleteImages client repoName images w) as [o w'] eqn:Hrun.
  cbn [fst snd] in *. unfold deleteImages in Hrun.
  apply deleteImagesFrom_trace in Hrun; [|lia].
  destruct Hrun as [k [_ [Hcalls [_ [Hall _]]]]].
  rewrite Hcalls, (Hall Hdone), firstn_all. cbn [skipn].
  unfold chunks. now rewrite length_map.
Qed.

Lemma deleteImages_item_failures_not_fatal_witness :
  fst (deleteImages mockClient "test-repo" [olderImage; newerImage]
         (startWorld itemFailureMock)) = Done None /\
  calls (snd (deleteImages mockClient "test-repo" [olderImage; newerImage]
                (startWorld itemFailureMock)))
  = [batchDeleteCall "test-repo"
       [{| Id_ImageTag := Some "v1"%string; Id_ImageDigest := None |};
        {| Id_ImageTag := Some "latest"%string; Id_ImageDigest := None |}]].
Proof.
  apply (deleteImages_item_failures_not_fatal mockClient "test-repo"
           [olderImage; newerImage]
           (fun m => m_BatchDeleteImageError m = None /\
                     m_BatchDeleteImageOutput m
                     = m_BatchDeleteImageOutput itemFailureMock)).
  - intros params m [H1 H2].
    eexists. exists (noteBatchDeleteImage params m).
    cbn [BatchDeleteImage mockClient]. unfold mockBatchDeleteImage. cbn.
    rewrite H1, H2. cbn. split; [reflexivity|]. split; [|now split].
    repeat constructor. discriminate.
  - split; reflexivity.
Defined.

(** X13. The errors of [processRepository].  An error it returns is either
    the error of the image fetch wrapped as "failed to get image details",
    then with the untouched starting summary and not one batch-delete call
    issued, or a transport error of a batch-delete call wrapped as "failed
    to delete batch of images", which only happens with dry-run off and a
    deletion set that is not empty. *)
Theorem processRepository_errors
        (R : GoRuntime) (St : Type) (time_Now : St -> Time)
        (client : ECRClient St) (fuel : nat) (repoName : string)
        (cfg : Config) (w w' : World St)
        (summary : CleanupSummary) (err : error) :
  processRepository time_Now fuel client repoName cfg w
  = (Done (summary, Some err), w') ->
  (exists e, err = Errorf "failed to get image details" e /\
             summary = freshRepoSummary /\
             deleteBatches (calls w') = deleteBatches (calls w)) \/
  (exists e, err = Errorf "failed to delete batch of images" e /\
             DryRun cfg = false /\ 0 < ImagesDeleted summary).
Proof.
  intros Hrun. rewrite processRepository_not_fetched in Hrun.
  pose proof (getImageDetailsLoop_no_delete client repoName fuel [] None w)
    as Hfetch.
  fold (getImageDetails fuel client repoName w) in Hfetch.
  destruct (getImageDetails fuel client repoName w)
    as [[[images [e|]]| |] w1] eqn:Hget; try discriminate.
  - injection Hrun as <- <- <-. left. exists e. now repeat split.
  - rewrite (processRepository_fetched time_Now _ _ _ cfg _ Hget) in Hrun.
    cbv zeta in Hrun.
    destruct (length _ =? 0)%nat eqn:Hlen; [discriminate|].
    apply Nat.eqb_neq in Hlen.
    destruct (DryRun cfg).
    + match type of Hrun with
      | context [forEach _ ?l ?w0] =>
          destruct (forEach_logDryRun l w0) as [_ [Hlog|Hlog]];
          rewrite Hlog in Hrun
      end; discriminate.
    + destruct (deleteImages client repoName _ w1) as [[[e|]| |] w2] eqn:Hdel;
        try discriminate.
      injection Hrun as <- <- <-. right.
      unfold deleteImages in Hdel. apply deleteImagesFrom_error in Hdel.
      destruct Hdel as [e' ->]. exists e'. simpl. repeat split. lia.
Qed.

Lemma processRepository_errors_witness :
  fst (processRepository (R := utcRuntime) testClock 1 mockClient "test-repo"
         (testConfig false 10 0)
         (startWorld (registryMock ["test-repo"%string]
                        [olderImage; newerImage]
                        (Some (ServerException "Delete error")))))
  = Done ({| RepositoriesProcessed := 1;
             ImagesDeleted := 1;
             SpaceFreed := 1000000 |},
          Some (Errorf "failed to delete batch of images"
                       (ServerException "Delete error"))) /\
  DryRun (testConfig false 10 0) = false /\ 0 < 1.
Proof.
  split; [vm_compute; reflexivity|].
  destruct (processRepository_errors
              utcRuntime testClock mockClient 1 "test-repo"
              (testConfig false 10 0)
              (startWorld (registryMock ["test-repo"%string]
                             [olderImage; newerImage]
                             (Some (ServerException "Delete error"))))
              (w' := snd (processRepository (R := utcRuntime) testClock 1
                            mockClient "test-repo" (testConfig false 10 0)
                            (startWorld (registryMock ["test-repo"%string]
                               [olderImage; newerImage]
                               (Some (ServerException "Delete error"))))))
              (summary := {| RepositoriesProcessed := 1;
                             ImagesDeleted := 1;
                             SpaceFreed := 1000000 |})
              (err := Errorf "failed to delete batch of images"
                             (ServerException "Delete error"))
              ltac:(vm_compute; reflexivity))
    as [[e [He _]]|[e [_ [Hdry Hpos]]]];
    [discriminate He | exact (conj Hdry Hpos)].
Defined.

(** ** Labels and identifiers *)

(** X14. The label logged for a per-item failure agrees with the label of
    the dry-run report: for the identifier [deleteImages] sends for an
    image, [getImageIdString] gives what [getImageTag] gives for the image,
    and "unknown" where [getImageTag] panics.  The identifier sent never
    carries both a tag and a digest. *)
Theorem getImageIdString_imageIdentifier (img : ImageDetail) :
  getImageIdString (Some (imageIdentifier img))
  = match getImageTag img with
    | Done label => label
    | _ => "unknown"%string
    end /\
  (Id_ImageTag (imageIdentifier img) = None \/
   Id_ImageDigest (imageIdentifier img) = None).
Proof.
  unfold getImageIdString, imageIdentifier, getImageTag.
  destruct (ImageTags img) as [|tag tags]; simpl.
  - destruct (ImageDigest img); split; auto.
  - split; auto.
Qed.

(** ** Errors of the fetches *)

Lemma getRepositoriesLoop_error (St : Type) (client : ECRClient St)
      (fuel : nat) :
  forall repositories token w repos e w',
    getRepositoriesLoop fuel client repositories token w
    = (Done (repos, Some e), w') ->
    repos = [] /\
    exists params s,
      snd (fst (DescribeRepositories client params s)) = Some e /\
      client_state w' = snd (DescribeRepositories client params s).
Proof.
  induction fuel as [|fuel IH]; intros repositories token w repos e w' Hrun;
    [discriminate|].
  cbn [getRepositoriesLoop] in Hrun. unfold bind at 1, invoke in Hrun.
  destruct (DescribeRepositories client {| dri_NextToken := token |}
              (client_state w)) as [[resp err] s1] eqn:Hcall.
  destruct err as [e1|].
  - injection Hrun as <- <- <-. split; [reflexivity|].
    exists {| dri_NextToken := token |}, (client_state w).
    now rewrite Hcall.
  - unfold bind, deref in Hrun. destruct resp as [resp|]; [|discriminate].
    unfold ret at 1 in Hrun.
    destruct (dro_NextToken resp); [now apply IH in Hrun | discriminate].
Qed.

(** X15. When [getRepositories] returns an error it returns no repository:
    the pages gathered before the failing call are dropped.  The error is
    the one a [DescribeRepositories] call returned, unwrapped, and that call
    was the last. *)
Theorem getRepositories_error
        (St : Type) (client : ECRClient St) (fuel : nat) (w w' : World St)
        (repos : list Repository) (e : error) :
  getRepositories fuel client w = (Done (repos, Some e), w') ->
  repos = [] /\
  exists params s,
    snd (fst (DescribeRepositories client params s)) = Some e /\
    client_state w' = snd (DescribeRepositories client params s).
Proof. apply getRepositoriesLoop_error. Qed.

Lemma getRepositories_error_witness :
  fst (getRepositories 1 mockClient (startWorld emptyMock))
  = Done ([], Some (ServerException "Test server error")) /\
  exists params s,
    snd (fst (DescribeRepositories mockClient params s))
    = Some (ServerException "Test server error") /\
    client_state (snd (getRepositories 1 mockClient (startWorld emptyMock)))
    = snd (DescribeRepositories mockClient params s).
Proof.
  split; [reflexivity|].
  exact (proj2 (getRepositories_error mockClient 1 (startWorld emptyMock)
                  (w' := snd (getRepositories 1 mockClient
                                (startWorld emptyMock)))
                  (repos := [])
                  (e := ServerException "Test server error") eq_refl)).
Defined.

Lemma getImageDetailsLoop_error (St : Type) (client : ECRClient St)
      (repoName : string) (fuel : nat) :
  forall images token w imgs e w',
    getImageDetailsLoop fuel client repoName images token w
    = (Done (imgs, Some e), w') ->
    imgs = [] /\
    ((exists params s,
         snd (fst (ListImages client params s)) = Some e /\
         client_state w' = snd (ListImages client params s)) \/
     (exists params s,
         dii_ImageIds params <> [] /\
         snd (fst (DescribeImages client params s)) = Some e /\
         client_state w' = snd (DescribeImages client params s))).
Proof.
  induction fuel as [|fuel IH]; intros images token w imgs e w' Hrun;
    [discriminate|].
  cbn [getImageDetailsLoop] in Hrun. unfold bind at 1, invoke in Hrun.
  destruct (ListImages client {| lii_RepositoryName := repoName;
                                 lii_NextToken := token |} (client_state w))
    as [[listResp err] s1] eqn:Hlist.
  destruct err as [e1|].
  { injection Hrun as <- <- <-. split; [reflexivity|]. left.
    exists {| lii_RepositoryName := repoName; lii_NextToken := token |},
           (client_state w).
    now rewrite Hlist. }
  unfold bind at 1, deref in Hrun. destruct listResp as [listResp|];
    [|discriminate].
  unfold ret at 1 in Hrun. unfold bind at 1 in Hrun.
  destruct (0 <? length (ImageIds listResp))%nat eqn:Hids.
  - unfold bind at 1, invoke in Hrun. cbn [client_state calls] in Hrun.
    destruct (DescribeImages client
                {| dii_RepositoryName := repoName;
                   dii_ImageIds := ImageIds listResp |} s1)
      as [[descResp err] s2] eqn:Hdesc.
    destruct err as [e2|].
    { injection Hrun as <- <- <-. split; [reflexivity|]. right.
      exists {| dii_RepositoryName := repoName;
                dii_ImageIds := ImageIds listResp |}, s1.
      rewrite Hdesc. repeat split.
      intros E. simpl in E. rewrite E in Hids. discriminate. }
    unfold bind at 1, deref in Hrun. destruct descResp as [descResp|];
      [|discriminate].
    unfold ret at 1 2 in Hrun.
    destruct (lio_NextToken listResp); [now apply IH in Hrun | discriminate].
  - unfold ret at 1 in Hrun.
    destruct (lio_NextToken listResp); [now apply IH in Hrun | discriminate].
Qed.

(** X16. When [getImageDetails] returns an error it returns no image: the
    details gathered from earlier pages are dropped.  The error is the one
    of its last call, a [ListImages] call or a [DescribeImages] call for at
    least one identifier, unwrapped. *)
Theorem getImageDetails_error
        (St : Type) (client : ECRClient St) (repoName : string) (fuel : nat)
        (w w' : World St) (images : list ImageDetail) (e : error) :
  getImageDetails fuel client repoName w = (Done (images, Some e), w') ->
  images = [] /\
  ((exists params s,
       snd (fst (ListImages client params s)) = Some e /\
       client_state w' = snd (ListImages client params s)) \/
   (exists params s,
       dii_ImageIds params <> [] /\
       snd (fst (DescribeImages client params s)) = Some e /\
       client_state w' = snd (DescribeImages client params s))).
Proof. apply getImageDetailsLoop_error. Qed.

Lemma getImageDetails_error_witness :
  fst (getImageDetails 1 mockClient "test-repo" (startWorld describeErrorMock))
  = Done ([], Some (ServerException "Describe error")) /\
  ((exists params s,
       snd (fst (ListImages mockClient params s))
       = Some (ServerException "Describe error") /\
       client_state (snd (getImageDetails 1 mockClient "test-repo"
                            (startWorld describeErrorMock)))
       = snd (ListImages mockClient params s)) \/
   (exists params s,
       dii_ImageIds params <> [] /\
       snd (fst (DescribeImages mockClient params s))
       = Some (ServerException "Describe error") /\
       client_state (snd (getImageDetails 1 mockClient "test-repo"
                            (startWorld describeErrorMock)))
       = snd (DescribeImages mockClient params s))).
Proof.
  split; [reflexivity|].
  exact (proj2 (getImageDetails_error mockClient "test-repo" 1
                  (startWorld describeErrorMock)
                  (w' := snd (getImageDetails 1 mockClient "test-repo"
                                (startWorld describeErrorMock)))
                  (images := [])
                  (e := ServerException "Describe error") eq_refl)).
Defined.

(** ** The production entry point *)

(** X17. [CleanupWithClient] is [cleanupECR] behind an injected client.
    When the AWS configuration fails to load, [cleanupECR] returns that
    error wrapped and touches no registry.  Otherwise it does, on the client
    made from the configuration, exactly what [CleanupWithClient] does:
    same calls, same final state, same outcome and summary; only the error
    of a failed repository-list fetch is wrapped as "failed to get
    repositories". *)
Theorem cleanupECR_CleanupWithClient
        (R : GoRuntime) (St : Type) (time_Now : St -> Time)
        (AwsConfig : Type)
        (LoadDefaultConfig : list LoadOption -> AwsConfig * option error)
        (NewFromConfig : AwsConfig -> ECRClient St)
        (fuel : nat) (cfg : Config) (w : World St) :
  let run := cleanupECR time_Now LoadDefaultConfig NewFromConfig fuel cfg w in
  (forall awsConfig e,
      loadAWSConfig LoadDefaultConfig (Region cfg) = (awsConfig, Some e) ->
      run = (Done ({| RepositoriesProcessed := 0;
                      ImagesDeleted := 0;
                      SpaceFreed := 0 |},
                   Some (Errorf "failed to load AWS config" e)), w)) /\
  (forall awsConfig,
      loadAWSConfig LoadDefaultConfig (Region cfg) = (awsConfig, None) ->
      run =
      match CleanupWithClient time_Now fuel cfg (NewFromConfig awsConfig) w with
      | (Done (summary, Some e), w') =>
          (Done (summary, Some (Errorf "failed to get repositories" e)), w')
      | other => other
      end).
Proof.
  intros run. subst run. unfold cleanupECR. split.
  - intros awsConfig e Hload. rewrite Hload. reflexivity.
  - intros awsConfig Hload. rewrite Hload.
    rewrite CleanupWithClient_cases. unfold bind at 1.
    destruct (getRepositories fuel (NewFromConfig awsConfig) w)
      as [[[repos [e|]]| |] w1]; try reflexivity.
    unfold bind.
    destruct (processRepositories time_Now fuel (NewFromConfig awsConfig) cfg
                repos _ w1) as [[s| |] w2]; reflexivity.
Qed.

Lemma cleanupECR_CleanupWithClient_witness :
  cleanupECR (R := utcRuntime) testClock
    (fun opts => (opts, @None error)) (fun _ => mockClient) 1
    (testConfig false 10 0) (startWorld emptyMock)
  = (Done ({| RepositoriesProcessed := 0; ImagesDeleted := 0; SpaceFreed := 0 |},
           Some (Errorf "failed to get repositories"
                        (ServerException "Test server error"))),
     snd (CleanupWithClient (R := utcRuntime) testClock 1
            (testConfig false 10 0) mockClient (startWorld emptyMock))) /\
  cleanupECR (R := utcRuntime) testClock
    (fun opts => (opts, Some (ServerException "no credentials")))
    (fun _ => mockClient) 1
    (testConfig false 10 0) (startWorld emptyMock)
  = (Done ({| RepositoriesProcessed := 0; ImagesDeleted := 0; SpaceFreed := 0 |},
           Some (Errorf "failed to load AWS config"
                        (ServerException "no credentials"))),
     startWorld emptyMock).
Proof.
  split.
  - rewrite (proj2 (cleanupECR_CleanupWithClient
                      utcRuntime testClock
                      (fun opts => (opts, @None error)) (fun _ => mockClient)
                      1 (testConfig false 10 0) (startWorld emptyMock))
                   [] eq_refl).
    reflexivity.
  - exact (proj1 (cleanupECR_CleanupWithClient
                    utcRuntime testClock
                    (fun opts => (opts, Some (ServerException "no credentials")))
                    (fun _ => mockClient)
                    1 (testConfig false 10 0) (startWorld emptyMock))
                 [] (ServerException "no credentials") eq_refl).
Defined.

(** ** Scope of a run *)

(** X18. Once the repository list is fetched, [CleanupWithClient] never
    asks for it again, and every further call (listing, describing or
    deleting images) names a repository of that list, however the run
    ends. *)
Theorem CleanupWithClient_scoped
        (R : GoRuntime) (St : Type) (time_Now : St -> Time)
        (client : ECRClient St) (fuel : nat) (cfg : Config)
        (w w1 : World St) (repos : list Repository) :
  getRepositories fuel client w = (Done (repos, None), w1) ->
  exists issued,
    calls (snd (CleanupWithClient time_Now fuel cfg client w))
    = calls w1 ++ issued /\
    Forall (fun c => exists name,
                callRepository c = Some name /\
                In (Some name) (map RepositoryName repos)) issued.
Proof.
  intros Hfetch. rewrite CleanupWithClient_cases, Hfetch.
  set (listed := fun name => In (Some name) (map RepositoryName repos)).
  set (Inv := fun w' : World St =>
                exists issued,
                  calls w' = calls w1 ++ issued /\
                  Forall (fun c => exists name,
                              callRepository c = Some name /\ listed name)
                         issued).
  assert (Hstep : forall (w' : World St) (c : Call) name,
             callRepository c = Some name -> listed name ->
             Inv w' ->
             exists issued,
               calls w' ++ [c] = calls w1 ++ issued /\
               Forall (fun c => exists name,
                           callRepository c = Some name /\ listed name)
                      issued).
  { intros w' c name Hc Hname [issued [Hcalls Hall]].
    exists (issued ++ [c]). rewrite Hcalls, app_assoc. split; [reflexivity|].
    apply Forall_app. split; [exact Hall|].
    constructor; [now exists name | constructor]. }
  assert (Hinv : forall acc,
             Inv (snd (processRepositories time_Now fuel client cfg repos
                         acc w1))).
  { intros acc.
    apply (processRepositories_inv time_Now client Inv (deleting := True)
             listed).
    - intros params w' Hrepo Hw'. unfold Inv. rewrite invoke_calls.
      exact (Hstep w' (CallListImages params) _ eq_refl Hrepo Hw').
    - intros params w' Hrepo _ Hw'. unfold Inv. rewrite invoke_calls.
      exact (Hstep w' (CallDescribeImages params) _ eq_refl Hrepo Hw').
    - intros _ params w' Hrepo _ Hw'. unfold Inv. rewrite invoke_calls.
      exact (Hstep w' (CallBatchDeleteImage params) _ eq_refl Hrepo Hw').
    - intros name Hin. exact Hin.
    - intros _. exact I.
    - exists []. split; [now rewrite app_nil_r | constructor]. }
  match goal with
  | |- context [processRepositories _ _ _ _ _ ?acc w1] =>
      specialize (Hinv acc);
      destruct (processRepositories time_Now fuel client cfg repos acc w1)
        as [[s| |] w2]
  end; exact Hinv.
Qed.

Lemma CleanupWithClient_scoped_witness :
  map callRepository
      (calls (snd (CleanupWithClient (R := utcRuntime) testClock 1
                     (testConfig false 10 0) mockClient
                     (startWorld (registryMock ["repo1"%string; "repo2"%string]
                                               [olderImage; newerImage] None)))))
  = [None;
     Some "repo1"%string; Some "repo1"%string; Some "repo1"%string;
     Some "repo2"%string; Some "repo2"%string; Some "repo2"%string].
Proof.
  destruct (CleanupWithClient_scoped
              utcRuntime testClock mockClient 1 (testConfig false 10 0)
              (startWorld (registryMock ["repo1"%string; "repo2"%string]
                                        [olderImage; newerImage] None))
              (w1 := snd (getRepositories 1 mockClient
                            (startWorld
                               (registryMock ["repo1"%string; "repo2"%string]
                                             [olderImage; newerImage] None))))
              (repos := [{| RepositoryName := Some "repo1"%string |};
                         {| RepositoryName := Some "repo2"%string |}])
              eq_refl) as [issued [Hcalls _]].
  rewrite Hcalls. vm_compute in Hcalls.
  destruct issued as [|c1 [|c2 [|c3 [|c4 [|c5 [|c6 [|c7 rest]]]]]]];
    try discriminate Hcalls.
  injection Hcalls as <- <- <- <- <- <-. reflexivity.
Defined.
